(** * FFXIV_MarketTool: the price fetcher of [src/app/page.tsx]

    A shallow embedding of the pure parts of the marketplace page: the
    helper [safeNum], the response normalizer
    [normalizeCurrentDataResponse], the reduction loop of
    [fetchCurrentPrices] that fills [nextMap], and the page handler
    [goToPage] with the memoised [totalPages].

    JavaScript values are an inductive type; numbers are IEEE-754 doubles
    in the Standard Library's [spec_float]; a property read on [undefined]
    or [null] throws, so the code runs in a small completion monad. *)

From Stdlib Require Import ZArith List String Bool Lia Permutation.
From Stdlib Require Import QArith Qround.
From Stdlib Require Import Floats.SpecFloat.
Import ListNotations.

Local Open Scope string_scope.
Local Open Scope list_scope.

(** ** JavaScript numbers *)

Module Num.

(** A JavaScript number is a binary64 value. *)
Definition number : Type := spec_float.

Definition prec : Z := 53.
Definition emax : Z := 1024.

(** The literal of an integer, rounded as the engine rounds it. *)
Definition of_Z (z : Z) : number := binary_normalize prec emax z 0 false.

Definition zero : number := S754_zero false.
Definition Infinity : number := S754_infinity false.
Definition NaN : number := S754_nan.

(** [Number.isFinite] on a value that already is a number. *)
Definition isFinite (x : number) : bool :=
  match x with
  | S754_zero _ | S754_finite _ _ _ => true
  | S754_infinity _ | S754_nan => false
  end.

(** ToBoolean on a number: [+0], [-0] and [NaN] are falsy. *)
Definition truthy (x : number) : bool :=
  match x with
  | S754_zero _ | S754_nan => false
  | S754_infinity _ | S754_finite _ _ _ => true
  end.

(** The operators [<], [<=] and [===] on two numbers. *)
Definition lt (x y : number) : bool := SFltb x y.
Definition le (x y : number) : bool := SFleb x y.
Definition strict_eq (x y : number) : bool := SFeqb x y.

(** [x !== 0] *)
Definition nonzero (x : number) : bool := negb (SFeqb x zero).

(** SameValueZero, the key equality of [Map]: [NaN] equals itself and
    the two zeros are one key. *)
Definition same_value_zero (x y : number) : bool :=
  match x, y with
  | S754_nan, S754_nan => true
  | _, _ => SFeqb x y
  end.

(** [Math.min] on two numbers. *)
Definition min (x y : number) : number :=
  match x, y with
  | S754_nan, _ | _, S754_nan => S754_nan
  | S754_zero sx, S754_zero sy => S754_zero (sx || sy)
  | _, _ => if SFltb y x then y else x
  end.

(** A price that survives the filter of the scan: finite and not zero. *)
Definition is_price (x : number) : bool := isFinite x && truthy x.

(** What a running minimum can hold: [Infinity] or a price. *)
Definition is_min (x : number) : bool :=
  match x with
  | S754_infinity false | S754_finite _ _ _ => true
  | _ => false
  end.

(** The comparison of two mantissa/exponent pairs of one sign, as
    [SFcompare] nests it. *)
Definition cmp_mag (e1 : Z) (m1 : positive) (e2 : Z) (m2 : positive) : comparison :=
  match Z.compare e1 e2 with
  | Lt => Lt
  | Gt => Gt
  | Eq => Pos.compare_cont Eq m1 m2
  end.

End Num.

(** ** JavaScript values *)

Set Warnings "-register-all".

Inductive value : Type :=
| Undefined
| Null
| Bool (b : bool)
| Number (n : Num.number)
| Str (s : string)
| Arr (elems : list value)
| Obj (fields : list (string * value)).

(** An object lists its own properties in the engine's enumeration order;
    a well-formed object names each property once, and a read finds the
    first binding. *)

(** ToBoolean. *)
Definition truthy (v : value) : bool :=
  match v with
  | Undefined | Null => false
  | Bool b => b
  | Number n => Num.truthy n
  | Str s => negb (s =? "")
  | Arr _ | Obj _ => true
  end.

(** [typeof v === "object"]: objects, arrays and [null]. *)
Definition typeof_object (v : value) : bool :=
  match v with
  | Null | Arr _ | Obj _ => true
  | _ => false
  end.

Definition nullish (v : value) : bool :=
  match v with
  | Undefined | Null => true
  | _ => false
  end.

Definition is_object (v : value) : bool :=
  match v with
  | Obj _ => true
  | _ => false
  end.

(** ** Completions: a value or a thrown [TypeError] *)

Inductive completion (A : Type) : Type :=
| Normal (a : A)
| Throw.

Arguments Normal {A} a.
Arguments Throw {A}.

Definition bind {A B} (c : completion A) (k : A -> completion B) : completion B :=
  match c with
  | Normal a => k a
  | Throw => Throw
  end.

Notation "x <- c ;; k" := (bind c (fun x => k))
  (at level 61, c at next level, right associativity).

(** [for (const x of xs) body], the loop variables threaded as [acc]. *)
Fixpoint for_of {A St} (body : St -> A -> completion St) (xs : list A) (acc : St)
  : completion St :=
  match xs with
  | [] => Normal acc
  | x :: rest => acc' <- body acc x ;; for_of body rest acc'
  end.

(** ** Property reads *)

Fixpoint lookup (k : string) (fields : list (string * value)) : value :=
  match fields with
  | [] => Undefined
  | (k', v) :: rest => if k =? k' then v else lookup k rest
  end.

Definition has_field (k : string) (v : value) : bool :=
  match v with
  | Obj fields => existsb (fun kv => k =? fst kv) fields
  | _ => false
  end.

(** [o.k] for the property names the page reads.  None of them is a
    built-in property of a primitive or of an array, so there the read
    gives [undefined]; on [undefined] and [null] it throws. *)
Definition get (o : value) (k : string) : completion value :=
  match o with
  | Undefined | Null => Throw
  | Obj fields => Normal (lookup k fields)
  | Bool _ | Number _ | Str _ | Arr _ => Normal Undefined
  end.

(** [a || b] with [b] evaluated only when [a] is falsy. *)
Definition or_else (a : completion value) (b : completion value) : completion value :=
  x <- a ;; if truthy x then Normal x else b.

(** [Object.values]. *)
Fixpoint chars (s : string) : list value :=
  match s with
  | EmptyString => []
  | String c rest => Str (String c EmptyString) :: chars rest
  end.

Definition Object_values (v : value) : completion (list value) :=
  match v with
  | Undefined | Null => Throw
  | Obj fields => Normal (map snd fields)
  | Arr elems => Normal elems
  | Str s => Normal (chars s)
  | Bool _ | Number _ => Normal []
  end.

(** ** The page's types and constants *)

Record PriceInfo : Type := {
  minAll : Num.number;
  minAllWorld : value;
  minNQ : Num.number;
  minNQWorld : value;
  minHQ : Num.number;
  minHQWorld : value;
  listingsFetched : nat;
  lastUploadTime : value
}.

Definition PAGE_SIZE : Z := 100.

(** [Map<number, PriceInfo>]: the bindings in insertion order. *)
Definition PriceMap : Type := list (Num.number * PriceInfo).

(** [m.set(k, v)]: an existing key keeps its place and takes the new value. *)
Fixpoint Map_set (k : Num.number) (v : PriceInfo) (m : PriceMap) : PriceMap :=
  match m with
  | [] => [(k, v)]
  | (k', v') :: rest =>
      if Num.same_value_zero k k' then (k', v) :: rest
      else (k', v') :: Map_set k v rest
  end.

Fixpoint Map_get (k : Num.number) (m : PriceMap) : option PriceInfo :=
  match m with
  | [] => None
  | (k', v') :: rest =>
      if Num.same_value_zero k k' then Some v' else Map_get k rest
  end.

Definition Map_has (k : Num.number) (m : PriceMap) : bool :=
  match Map_get k m with
  | Some _ => true
  | None => false
  end.

(** ** Helper functions *)

(** [safeNum(v, fallback = 0)]. *)
Definition safeNum (v : value) (fallback : Num.number) : Num.number :=
  match v with
  | Number n => if Num.isFinite n then n else fallback
  | _ => fallback
  end.

(** ** The reduction loop of [fetchCurrentPrices] *)

(** The six variables of the inner loop. *)
Record minima : Type := {
  cur_minAll : Num.number;  cur_minAllW : value;
  cur_minNQ : Num.number;   cur_minNQW : value;
  cur_minHQ : Num.number;   cur_minHQW : value
}.

Definition minima_init : minima :=
  {| cur_minAll := Num.Infinity; cur_minAllW := Str "";
     cur_minNQ := Num.Infinity;  cur_minNQW := Str "";
     cur_minHQ := Num.Infinity;  cur_minHQW := Str "" |}.

(** The body of [for (const l of listings)]. *)
Definition scan_listing (st : minima) (l : value) : completion minima :=
  p <- get l "pricePerUnit" ;;
  let ppu := safeNum p Num.zero in
  if negb (Num.truthy ppu) then Normal st
  else
    wName <- or_else (get l "worldName") (Normal (Str "")) ;;
    let st1 :=
      if Num.lt ppu (cur_minAll st)
      then {| cur_minAll := ppu; cur_minAllW := wName;
              cur_minNQ := cur_minNQ st; cur_minNQW := cur_minNQW st;
              cur_minHQ := cur_minHQ st; cur_minHQW := cur_minHQW st |}
      else st in
    hq <- get l "hq" ;;
    if truthy hq then
      if Num.lt ppu (cur_minHQ st1)
      then Normal {| cur_minAll := cur_minAll st1; cur_minAllW := cur_minAllW st1;
                     cur_minNQ := cur_minNQ st1; cur_minNQW := cur_minNQW st1;
                     cur_minHQ := ppu; cur_minHQW := wName |}
      else Normal st1
    else
      if Num.lt ppu (cur_minNQ st1)
      then Normal {| cur_minAll := cur_minAll st1; cur_minAllW := cur_minAllW st1;
                     cur_minNQ := ppu; cur_minNQW := wName;
                     cur_minHQ := cur_minHQ st1; cur_minHQW := cur_minHQW st1 |}
      else Normal st1.

Definition scan_listings (listings : list value) : completion minima :=
  for_of scan_listing listings minima_init.

(** [x === Infinity ? 0 : x]. *)
Definition unset_to_zero (x : Num.number) : Num.number :=
  if Num.strict_eq x Num.Infinity then Num.zero else x.

(** [it.itemID || it.itemId || it.item_id], before [safeNum]. *)
Definition raw_item_id (it : value) : completion value :=
  or_else (or_else (get it "itemID") (get it "itemId")) (get it "item_id").

(** [Array.isArray(it.listings) ? it.listings : []]. *)
Definition listings_of (it : value) : completion (list value) :=
  ls <- get it "listings" ;;
  match ls with
  | Arr elems => Normal elems
  | _ => Normal []
  end.

(** The object literal handed to [nextMap.set]. *)
Definition price_info (st : minima) (listings : list value) (upload : value)
  : PriceInfo :=
  {| minAll := unset_to_zero (cur_minAll st);
     minAllWorld := cur_minAllW st;
     minNQ := unset_to_zero (cur_minNQ st);
     minNQWorld := cur_minNQW st;
     minHQ := unset_to_zero (cur_minHQ st);
     minHQWorld := cur_minHQW st;
     listingsFetched := List.length listings;
     lastUploadTime := upload |}.

(** What one entry contributes: nothing when it is skipped by
    [if (!itemId) continue], else its key and its aggregate. *)
Definition aggregate_entry (it : value)
  : completion (option (Num.number * PriceInfo)) :=
  raw <- raw_item_id it ;;
  let itemId := safeNum raw Num.zero in
  if negb (Num.truthy itemId) then Normal None
  else
    listings <- listings_of it ;;
    st <- scan_listings listings ;;
    upload <- get it "lastUploadTime" ;;
    Normal (Some (itemId, price_info st listings upload)).

(** The body of [for (const it of entries)]. *)
Definition reduce_entry (nextMap : PriceMap) (it : value) : completion PriceMap :=
  r <- aggregate_entry it ;;
  match r with
  | None => Normal nextMap
  | Some (itemId, info) => Normal (Map_set itemId info nextMap)
  end.

(** [nextMap] as [fetchCurrentPrices] passes it to [setPriceMap]. *)
Definition reduce_entries (entries : list value) : completion PriceMap :=
  for_of reduce_entry entries [].

(** ** The response normalizer *)

Definition normalizeCurrentDataResponse (data : value) : completion (list value) :=
  if negb (truthy data) then Normal []
  else
    items <- get data "items" ;;
    if truthy items then
      match items with
      | Arr elems => Normal elems
      | _ => vs <- Object_values items ;; Normal (filter typeof_object vs)
      end
    else
      c <- or_else (get data "itemID") (get data "listings") ;;
      if truthy c then Normal [data] else Normal [].

(** ** The price fetcher, from the parsed response on

    [fetchCurrentPrices] after [await res.json()]: the map it hands to
    [setPriceMap]; when the [try] block throws, the [catch] branch logs
    the error and the price map stays as it was. *)
Definition fetchCurrentPrices (data : value) (priceMap : PriceMap) : PriceMap :=
  match entries <- normalizeCurrentDataResponse data ;; reduce_entries entries with
  | Normal nextMap => nextMap
  | Throw => priceMap
  end.

(** ** Page navigation *)

Record PageState : Type := {
  displayIds : list Z;
  page : Z
}.

(** [Math.max(1, Math.ceil(displayIds.length / PAGE_SIZE))].  The
    quotient of two integers below 2^32 by 100 is never so near an
    integer that rounding changes its ceiling, so it is taken exactly. *)
Definition totalPages (st : PageState) : Z :=
  Z.max 1 (Qceiling (inject_Z (Z.of_nat (List.length (displayIds st))) / inject_Z PAGE_SIZE)).

(** [goToPage(p)]: the state after [setPage(next)]. *)
Definition goToPage (p : Z) (st : PageState) : PageState :=
  let next := Z.min (Z.max 1 p) (totalPages st) in
  {| displayIds := displayIds st; page := next |}.

(** ** Reading a listing

    What the loop body sees of a listing that is neither [undefined] nor
    [null], and the three minima as one family indexed by quality. *)

(** [o.k] where the read cannot throw. *)
Definition prop (o : value) (k : string) : value :=
  match o with
  | Obj fields => lookup k fields
  | _ => Undefined
  end.

(** [safeNum(l.pricePerUnit)] *)
Definition listing_price (l : value) : Num.number :=
  safeNum (prop l "pricePerUnit") Num.zero.

(** [l.worldName || ""] *)
Definition listing_world (l : value) : value :=
  if truthy (prop l "worldName") then prop l "worldName" else Str "".

(** the branch [if (l.hq)] takes *)
Definition listing_hq (l : value) : bool := truthy (prop l "hq").

(** the listing is not skipped by [if (!ppu) continue] *)
Definition passes_filter (l : value) : bool := Num.truthy (listing_price l).

Inductive quality : Type := Overall | NQ | HQ.

(** The listings a minimum ranges over. *)
Definition qualifies (c : quality) (l : value) : bool :=
  passes_filter l &&
  match c with
  | Overall => true
  | NQ => negb (listing_hq l)
  | HQ => listing_hq l
  end.

Definition cur_min (c : quality) (st : minima) : Num.number * value :=
  match c with
  | Overall => (cur_minAll st, cur_minAllW st)
  | NQ => (cur_minNQ st, cur_minNQW st)
  | HQ => (cur_minHQ st, cur_minHQW st)
  end.

Definition final_min (c : quality) (info : PriceInfo) : Num.number :=
  match c with
  | Overall => minAll info
  | NQ => minNQ info
  | HQ => minHQ info
  end.

Definition final_world (c : quality) (info : PriceInfo) : value :=
  match c with
  | Overall => minAllWorld info
  | NQ => minNQWorld info
  | HQ => minHQWorld info
  end.

(** One minimum's share of the loop body: replace it under a strict [<]. *)
Definition take_lower (c : quality) (acc : Num.number * value) (l : value)
  : Num.number * value :=
  if qualifies c l && Num.lt (listing_price l) (fst acc)
  then (listing_price l, listing_world l)
  else acc.

(** The loop body on a listing whose reads do not throw. *)
Definition scan_view (st : minima) (l : value) : minima :=
  {| cur_minAll := fst (take_lower Overall (cur_min Overall st) l);
     cur_minAllW := snd (take_lower Overall (cur_min Overall st) l);
     cur_minNQ := fst (take_lower NQ (cur_min NQ st) l);
     cur_minNQW := snd (take_lower NQ (cur_min NQ st) l);
     cur_minHQ := fst (take_lower HQ (cur_min HQ st) l);
     cur_minHQW := snd (take_lower HQ (cur_min HQ st) l) |}.

(** An entry, and each of its listings, is an actual value: reading a
    property of it does not throw. *)
Definition listings_view (it : value) : list value :=
  match prop it "listings" with
  | Arr elems => elems
  | _ => []
  end.

Definition well_typed_entry (it : value) : Prop :=
  nullish it = false /\ Forall (fun l => nullish l = false) (listings_view it).

(** [it.itemID || it.itemId || it.item_id] where the reads cannot throw. *)
Definition raw_id_view (it : value) : value :=
  if truthy (prop it "itemID") then prop it "itemID"
  else if truthy (prop it "itemId") then prop it "itemId"
  else prop it "item_id".

(** The scan keeps the overall minimum the least of the other two. *)
Definition linked (st : minima) : Prop :=
  Num.is_min (cur_minAll st) = true /\
  Num.is_min (cur_minNQ st) = true /\
  Num.is_min (cur_minHQ st) = true /\
  cur_minAll st = Num.min (cur_minNQ st) (cur_minHQ st).

(** What a well-typed entry contributes, read off without the monad. *)
Definition entry_view (it : value) : option (Num.number * PriceInfo) :=
  let itemId := safeNum (raw_id_view it) Num.zero in
  if Num.truthy itemId
  then Some (itemId,
             price_info (fold_left scan_view (listings_view it) minima_init)
                        (listings_view it) (prop it "lastUploadTime"))
  else None.

(** ** Sample data *)

(** [{ pricePerUnit: price, hq: hq, worldName: world }] *)
Definition sample_listing (price : Z) (hq : bool) (world : string) : value :=
  Obj [("pricePerUnit", Number (Num.of_Z price)); ("hq", Bool hq);
       ("worldName", Str world)].

(** [{ itemID: id, lastUploadTime: 1700000000000, listings: ls }] *)
Definition sample_entry (id : Z) (ls : list value) : value :=
  Obj [("itemID", Number (Num.of_Z id));
       ("lastUploadTime", Number (Num.of_Z 1700000000000));
       ("listings", Arr ls)].

(** [{ pricePerUnit: "abc", hq: false, worldName: "B" }] *)
Definition sample_bad_listing : value :=
  Obj [("pricePerUnit", Str "abc"); ("hq", Bool false); ("worldName", Str "B")].

(** An entry none of whose two listings has a usable price, and the
    aggregate the reducer makes of it. *)
Definition sample_unpriced_entry : value :=
  sample_entry 5 [sample_listing 0 false "A"; sample_bad_listing].

Definition sample_unpriced_info : PriceInfo :=
  {| minAll := Num.zero; minAllWorld := Str "";
     minNQ := Num.zero; minNQWorld := Str "";
     minHQ := Num.zero; minHQWorld := Str "";
     listingsFetched := 2;
     lastUploadTime := Number (Num.of_Z 1700000000000) |}.

(** An entry with a malformed listing between two good ones. *)
Definition sample_mixed_entry : value :=
  sample_entry 5 [sample_listing 100 false "A"; sample_bad_listing;
                  sample_listing 90 true "C"].

Definition sample_mixed_info : PriceInfo :=
  {| minAll := Num.of_Z 90; minAllWorld := Str "C";
     minNQ := Num.of_Z 100; minNQWorld := Str "A";
     minHQ := Num.of_Z 90; minHQWorld := Str "C";
     listingsFetched := 3;
     lastUploadTime := Number (Num.of_Z 1700000000000) |}.

(** An entry with a price tie between servers "A" and "B". *)
Definition sample_tie_entry : value :=
  sample_entry 5 [sample_listing 120 false "C"; sample_listing 100 false "A";
                  sample_listing 100 false "B"].

Definition sample_tie_info : PriceInfo :=
  {| minAll := Num.of_Z 100; minAllWorld := Str "A";
     minNQ := Num.of_Z 100; minNQWorld := Str "A";
     minHQ := Num.zero; minHQWorld := Str "";
     listingsFetched := 3;
     lastUploadTime := Number (Num.of_Z 1700000000000) |}.

(** An entry whose only listing names no server. *)
Definition sample_nameless_entry : value :=
  sample_entry 5 [Obj [("pricePerUnit", Number (Num.of_Z 100)); ("hq", Bool false)]].

Definition sample_nameless_info : PriceInfo :=
  {| minAll := Num.of_Z 100; minAllWorld := Str "";
     minNQ := Num.of_Z 100; minNQWorld := Str "";
     minHQ := Num.zero; minHQWorld := Str "";
     listingsFetched := 1;
     lastUploadTime := Number (Num.of_Z 1700000000000) |}.

(** ** Identifiers and keys *)

(** [typeof v === "number" && Number.isFinite(v)] *)
Definition finite_number (v : value) : bool :=
  match v with
  | Number n => Num.isFinite n
  | _ => false
  end.

(** a finite number other than zero *)
Definition finite_nonzero_number (v : value) : bool :=
  match v with
  | Number n => Num.isFinite n && Num.truthy n
  | _ => false
  end.

(** [m.has(v)] for a map that holds only number keys *)
Definition is_key (v : value) (m : PriceMap) : bool :=
  match v with
  | Number n => Map_has n m
  | _ => false
  end.

(** every key of the map is a finite number other than zero *)
Definition keys_ok (m : PriceMap) : Prop :=
  Forall (fun kv => Num.is_price (fst kv) = true) m.

(** [{ itemID: 0, listings: [{ pricePerUnit: 100, hq: false, worldName: "A" }] }] *)
Definition sample_zero_id_entry : value :=
  Obj [("itemID", Number Num.zero);
       ("listings", Arr [sample_listing 100 false "A"])].

(** An entry that names its identifier [itemId], with a string for a price. *)
Definition sample_malformed_entry : value :=
  Obj [("itemId", Number (Num.of_Z 7)); ("listings", Arr [sample_bad_listing])].

(** ** Sample responses *)

(** [{ items: { "100": {...}, "200": {...} } }] *)
Definition sample_mapping_response : value :=
  Obj [("items", Obj [("100", sample_entry 100 []); ("200", sample_entry 200 [])])].

(** [{ itemID: 0 }] *)
Definition sample_zero_id_response : value :=
  Obj [("itemID", Number Num.zero)].

(** ** The page window of [fetchPageData] *)

(** [xs.slice(start, end)] on integer arguments: a negative index counts
    from the end, and both are clamped to the array. *)
Definition Array_slice {A : Type} (xs : list A) (start stop : Z) : list A :=
  let len := Z.of_nat (List.length xs) in
  let k := if Z.ltb start 0 then Z.max (len + start) 0 else Z.min start len in
  let final := if Z.ltb stop 0 then Z.max (len + stop) 0 else Z.min stop len in
  firstn (Z.to_nat (final - k)) (skipn (Z.to_nat k) xs).

(** [targetIds]: the identifiers [fetchPageData] asks for. *)
Definition targetIds (st : PageState) : list Z :=
  let start := ((page st - 1) * PAGE_SIZE)%Z in
  let stop := (start + PAGE_SIZE)%Z in
  Array_slice (displayIds st) start stop.

(** ** The pagination buttons *)

(** [disabled={page <= 1}] and [disabled={page >= totalPages}]; the upper
    pair of buttons is also disabled while the page loads. *)
Definition prev_disabled (st : PageState) : bool := Z.leb (page st) 1.
Definition next_disabled (st : PageState) : bool := Z.leb (totalPages st) (page st).

(** [onClick={() => goToPage(page - 1)}] and [goToPage(page + 1)] *)
Definition click_prev (st : PageState) : PageState := goToPage (page st - 1) st.
Definition click_next (st : PageState) : PageState := goToPage (page st + 1) st.

(** The pages a reader can turn to: 1, ..., [totalPages]. *)
Definition all_pages (st : PageState) : list Z :=
  map (fun i => Z.of_nat (S i)) (seq 0 (Z.to_nat (totalPages st))).

(** ** The search handler *)

(** [xs.map(f)] for a callback that may throw. *)
Fixpoint Array_map {A B : Type} (f : A -> completion B) (xs : list A)
  : completion (list B) :=
  match xs with
  | [] => Normal []
  | x :: rest => y <- f x ;; ys <- Array_map f rest ;; Normal (y :: ys)
  end.

(** [.filter((id) => typeof id === "number")] *)
Fixpoint numbers_of (vs : list value) : list Num.number :=
  match vs with
  | [] => []
  | Number n :: rest => n :: numbers_of rest
  | _ :: rest => numbers_of rest
  end.

(** [(data.results || []).map((r) => r.row_id || r.id)]: calling [.map]
    on a truthy value that is no array throws. *)
Definition mappedIds (data : value) : completion (list value) :=
  results <- or_else (get data "results") (Normal (Arr [])) ;;
  match results with
  | Arr rs => Array_map (fun r => or_else (get r "row_id") (get r "id")) rs
  | _ => Throw
  end.

Definition foundIds (data : value) : completion (list Num.number) :=
  ids <- mappedIds data ;; Normal (numbers_of ids).

(** [new Set(allMarketableIds).has(id)] *)
Definition Set_has (id : Num.number) (members : list Num.number) : bool :=
  existsb (Num.same_value_zero id) members.

(** [validIds], the list handed to [setDisplayIds]. *)
Definition validIds (data : value) (allMarketableIds : list Num.number)
  : completion (list Num.number) :=
  found <- foundIds data ;;
  Normal (filter (fun id => Set_has id allMarketableIds) found).

(** ** The icon address *)

Section IconUrl.

(** [encodeURIComponent], which throws a [URIError] on a lone surrogate. *)
Variable encodeURIComponent : value -> completion string.

Definition placeholder : string := "/placeholder.svg?height=64&width=64".

Definition parseIconUrl (iconData : value) : completion string :=
  if negb (truthy iconData) then Normal placeholder
  else
    rawPath <- or_else (get iconData "path_hr1") (get iconData "path") ;;
    if negb (truthy rawPath) then Normal placeholder
    else
      enc <- encodeURIComponent rawPath ;;
      Normal ("https://v2.xivapi.com/api/asset?path=" ++ enc ++ "&format=png")%string.

End IconUrl.

(** ** The price rows of [MarketItemCard] *)

(** What the price span shows: ["-"] or the formatted value. *)
Inductive price_text : Type :=
| Dash
| Formatted (v : Num.number).

(** The child [{isDCMode && hasPrice && world && (<span>...)}]: the badge,
    or the falsy operand the chain stopped at. *)
Inductive badge_child : Type :=
| Badge (world : value)
| Stopped (v : value).

Record PriceRow : Type := {
  row_text : price_text;
  row_badge : badge_child
}.

Definition renderPriceRow (isDCMode : bool) (v : Num.number) (world : value)
  : PriceRow :=
  let hasPrice := Num.lt Num.zero v in
  {| row_text := if hasPrice then Formatted v else Dash;
     row_badge :=
       if isDCMode then
         if hasPrice then
           if truthy world then Badge world else Stopped world
         else Stopped (Bool false)
       else Stopped (Bool false) |}.

(** What React puts on the screen for a falsy child: nothing for
    [false], [null], [undefined] and the empty string, the text of a
    number otherwise. *)
Definition renders_nothing (b : badge_child) : bool :=
  match b with
  | Badge _ => false
  | Stopped (Number _) => false
  | Stopped _ => true
  end.

(** [priceMap.get(item.id)] *)
Definition priceMap_get (id : value) (m : PriceMap) : option PriceInfo :=
  match id with
  | Number n => Map_get n m
  | _ => None
  end.

(** The two rows of a card:
    [renderPriceRow("NQ", price?.minNQ ?? 0, price?.minNQWorld)] and
    [renderPriceRow("HQ", price?.minHQ ?? 0, price?.minHQWorld)]. *)
Definition row_quality (hq : bool) : quality := if hq then HQ else NQ.

Definition card_row (isDCMode : bool) (hq : bool) (price : option PriceInfo)
  : PriceRow :=
  match price with
  | Some info =>
      renderPriceRow isDCMode (final_min (row_quality hq) info)
                     (final_world (row_quality hq) info)
  | None => renderPriceRow isDCMode Num.zero Undefined
  end.

(** * Facts *)

(** ** The order of numbers *)

Module NumFacts.

Import Num.

Lemma cmp_mag_refl e m : cmp_mag e m e m = Eq.
Proof.
  unfold cmp_mag. rewrite Z.compare_refl.
  change (Pos.compare m m = Eq). apply Pos.compare_refl.
Qed.

Lemma cmp_mag_lt e1 m1 e2 m2 :
  cmp_mag e1 m1 e2 m2 = Lt <-> (e1 < e2 \/ (e1 = e2 /\ (m1 < m2)%positive))%Z.
Proof.
  unfold cmp_mag. change (Pos.compare_cont Eq m1 m2) with (Pos.compare m1 m2).
  destruct (Z.compare_spec e1 e2), (Pos.compare_spec m1 m2);
    split; intros; try discriminate; try reflexivity; try lia.
Qed.

Lemma cmp_mag_gt e1 m1 e2 m2 :
  cmp_mag e1 m1 e2 m2 = Gt <-> (e2 < e1 \/ (e1 = e2 /\ (m2 < m1)%positive))%Z.
Proof.
  unfold cmp_mag. change (Pos.compare_cont Eq m1 m2) with (Pos.compare m1 m2).
  destruct (Z.compare_spec e1 e2), (Pos.compare_spec m1 m2);
    split; intros; try discriminate; try reflexivity; try lia.
Qed.

Lemma cmp_mag_eq e1 m1 e2 m2 :
  cmp_mag e1 m1 e2 m2 = Eq <-> e1 = e2 /\ m1 = m2.
Proof.
  unfold cmp_mag. change (Pos.compare_cont Eq m1 m2) with (Pos.compare m1 m2).
  destruct (Z.compare_spec e1 e2), (Pos.compare_spec m1 m2);
    split; intros; try discriminate; try reflexivity; try lia;
    try (split; congruence).
Qed.

(** [x < y] on two finite numbers of one sign. *)
Lemma lt_finite s m1 e1 m2 e2 :
  lt (S754_finite s m1 e1) (S754_finite s m2 e2) =
  match (if s then cmp_mag e2 m2 e1 m1 else cmp_mag e1 m1 e2 m2) with
  | Lt => true
  | _ => false
  end.
Proof.
  unfold lt, SFltb, SFcompare, cmp_mag.
  change (Pos.compare_cont Eq m1 m2) with (Pos.compare m1 m2).
  change (Pos.compare_cont Eq m2 m1) with (Pos.compare m2 m1).
  destruct s.
  - rewrite (Z.compare_antisym e1 e2), (Pos.compare_antisym m1 m2).
    destruct (Z.compare e1 e2), (Pos.compare m1 m2); reflexivity.
  - destruct (Z.compare e1 e2), (Pos.compare m1 m2); reflexivity.
Qed.

Lemma lt_irrefl x : lt x x = false.
Proof.
  destruct x as [s|s| |s m e]; try reflexivity; try (destruct s; reflexivity).
  rewrite lt_finite. destruct s; rewrite cmp_mag_refl; reflexivity.
Qed.

Lemma lt_finite_true s m1 e1 m2 e2 :
  lt (S754_finite s m1 e1) (S754_finite s m2 e2) = true <->
  (if s then cmp_mag e2 m2 e1 m1 else cmp_mag e1 m1 e2 m2) = Lt.
Proof.
  rewrite lt_finite.
  destruct (if s then cmp_mag e2 m2 e1 m1 else cmp_mag e1 m1 e2 m2);
    split; congruence.
Qed.

Lemma lt_trans x y z : lt x y = true -> lt y z = true -> lt x z = true.
Proof.
  destruct x as [sx|sx| |sx mx ex], y as [sy|sy| |sy my ey],
           z as [sz|sz| |sz mz ez];
    try (destruct sx); try (destruct sy); try (destruct sz);
    try (cbn; congruence);
    rewrite ?lt_finite_true; cbn [lt SFltb SFcompare]; try congruence;
    rewrite !cmp_mag_lt; lia.
Qed.

Lemma lt_asym x y : lt x y = true -> lt y x = false.
Proof.
  intros H. destruct (lt y x) eqn:E; [|reflexivity].
  pose proof (lt_trans _ _ _ H E) as C. rewrite lt_irrefl in C. discriminate.
Qed.

(** Two running minima that are not ordered by [<] are the same number. *)
Lemma lt_total x y :
  is_min x = true -> is_min y = true ->
  lt x y = false -> lt y x = false -> x = y.
Proof.
  destruct x as [sx|sx| |sx mx ex], y as [sy|sy| |sy my ey];
    try (destruct sx); try (destruct sy);
    try (cbn; congruence); intros _ _; rewrite !lt_finite; intros H1 H2.
  - destruct (cmp_mag ey my ex mx) eqn:E1; try discriminate.
    + apply cmp_mag_eq in E1. destruct E1; subst; reflexivity.
    + apply cmp_mag_gt in E1.
      destruct (cmp_mag ex mx ey my) eqn:E2; try discriminate.
      * apply cmp_mag_eq in E2. destruct E2; subst; reflexivity.
      * apply cmp_mag_gt in E2. lia.
  - destruct (cmp_mag ex mx ey my) eqn:E1; try discriminate.
    + apply cmp_mag_eq in E1. destruct E1; subst; reflexivity.
    + apply cmp_mag_gt in E1.
      destruct (cmp_mag ey my ex mx) eqn:E2; try discriminate.
      * apply cmp_mag_eq in E2. destruct E2; subst; reflexivity.
      * apply cmp_mag_gt in E2. lia.
Qed.

Lemma lt_le x y : lt x y = true -> le x y = true.
Proof.
  unfold lt, le, SFltb, SFleb. destruct (SFcompare x y) as [[| |]|]; congruence.
Qed.

Lemma strict_eq_refl x : is_min x = true -> strict_eq x x = true.
Proof.
  destruct x as [s|s| |s m e]; cbn; try congruence.
  - destruct s; congruence.
  - intros _. unfold strict_eq, SFeqb, SFcompare.
    rewrite Z.compare_refl, Pos.compare_cont_refl. destruct s; reflexivity.
Qed.

Lemma le_refl x : is_min x = true -> le x x = true.
Proof.
  intros H. apply strict_eq_refl in H. revert H.
  unfold strict_eq, le, SFeqb, SFleb. destruct (SFcompare x x) as [[| |]|]; congruence.
Qed.

Lemma le_of_not_lt x y :
  is_min x = true -> is_min y = true -> lt y x = false -> le x y = true.
Proof.
  intros Hx Hy H. destruct (lt x y) eqn:E.
  - now apply lt_le.
  - rewrite (lt_total x y Hx Hy E H). now apply le_refl.
Qed.

(** On a price, [===] and the key equality of [Map] are equality. *)
Lemma strict_eq_price x y :
  is_price y = true -> strict_eq x y = true -> x = y.
Proof.
  destruct x as [sx|sx| |sx mx ex], y as [sy|sy| |sy my ey]; cbn;
    try congruence; try (destruct sx; congruence);
    try (destruct sy; congruence).
  intros _. unfold strict_eq, SFeqb, SFcompare.
  change (Pos.compare_cont Eq mx my) with (Pos.compare mx my).
  destruct sx, sy; try congruence;
    destruct (Z.compare_spec ex ey), (Pos.compare_spec mx my);
    cbn; congruence.
Qed.

Lemma same_value_zero_price x y :
  is_price y = true -> same_value_zero x y = true -> x = y.
Proof.
  intros Hy H. apply strict_eq_price; [exact Hy|].
  destruct x, y; cbn in *; congruence.
Qed.

Lemma same_value_zero_refl x : is_price x = true -> same_value_zero x x = true.
Proof.
  intros H. assert (M : is_min x = true) by (destruct x; cbn in *; congruence).
  apply strict_eq_refl in M. destruct x; cbn in *; congruence.
Qed.

(** [Math.min] of two running minima is the one that [<] selects. *)
Lemma min_is_min x y :
  is_min x = true -> is_min y = true -> min x y = if lt y x then y else x.
Proof. destruct x as [s|s| |s m e], y as [s'|s'| |s' m' e']; cbn; congruence. Qed.

(** Closing a goal about a few numbers from the [<] facts at hand. *)
Ltac num_order :=
  repeat match goal with
  | H : lt ?a ?a = true |- _ => rewrite lt_irrefl in H; discriminate H
  | H1 : lt ?a ?b = true, H2 : lt ?a ?b = false |- _ =>
      rewrite H1 in H2; discriminate H2
  | H1 : lt ?a ?b = true, H2 : lt ?b ?c = true |- _ =>
      lazymatch goal with
      | _ : lt a c = true |- _ => fail
      | _ => pose proof (lt_trans _ _ _ H1 H2)
      end
  | H1 : lt ?a ?b = false, H2 : lt ?b ?a = false |- _ =>
      let E := fresh "E" in
      assert (E : a = b) by (apply lt_total; assumption);
      clear H2; subst
  end; try reflexivity.

Ltac with_lt :=
  repeat (cbv iota;
          match goal with
          | H : lt ?a ?b = _ |- context [lt ?a ?b] => rewrite H
          end);
  cbv iota.

Ltac compare_all p n h :=
  destruct (lt p n) eqn:?, (lt n p) eqn:?, (lt p h) eqn:?, (lt h p) eqn:?,
           (lt n h) eqn:?, (lt h n) eqn:?;
  with_lt; num_order.

(** Lowering the overall minimum by a price is lowering one of the two
    minima it is the least of. *)
Lemma min_lower_left p n h :
  is_min p = true -> is_min n = true -> is_min h = true ->
  (if lt p (min n h) then p else min n h) = min (if lt p n then p else n) h.
Proof.
  intros Hp Hn Hh. rewrite (min_is_min n h Hn Hh).
  rewrite (min_is_min (if lt p n then p else n) h)
    by (destruct (lt p n); assumption || exact Hh).
  compare_all p n h.
Qed.

Lemma min_lower_right p n h :
  is_min p = true -> is_min n = true -> is_min h = true ->
  (if lt p (min n h) then p else min n h) = min n (if lt p h then p else h).
Proof.
  intros Hp Hn Hh. rewrite (min_is_min n h Hn Hh).
  rewrite (min_is_min n (if lt p h then p else h))
    by (destruct (lt p h); assumption || exact Hn).
  compare_all p n h.
Qed.

Lemma lt_Infinity_left x : lt Infinity x = false.
Proof. destruct x as [s|s| |s m e]; try reflexivity; destruct s; reflexivity. Qed.

Lemma nonzero_price x : is_price x = true -> nonzero x = true.
Proof.
  destruct x as [s|s| |s m e]; cbn; try congruence. destruct s; reflexivity.
Qed.

End NumFacts.

(** ** Reads that do not throw *)

Lemma get_prop o k : nullish o = false -> get o k = Normal (prop o k).
Proof. destruct o; cbn; congruence. Qed.

Lemma prop_absent k o : has_field k o = false -> prop o k = Undefined.
Proof.
  destruct o as [| | | | | |fields]; try reflexivity. cbn.
  induction fields as [|[k' v'] fields IH]; [reflexivity|].
  cbn. intros H. apply orb_false_iff in H. destruct H as [Hk Hrest].
  rewrite Hk. now apply IH.
Qed.

Lemma safeNum_finite v : Num.isFinite (safeNum v Num.zero) = true.
Proof.
  destruct v as [| | |n| | |]; cbn; try reflexivity.
  destruct (Num.isFinite n) eqn:E; [exact E | reflexivity].
Qed.

Lemma safeNum_price v :
  Num.truthy (safeNum v Num.zero) = true -> Num.is_price (safeNum v Num.zero) = true.
Proof. intros H. unfold Num.is_price. now rewrite safeNum_finite, H. Qed.

Lemma is_price_is_min x : Num.is_price x = true -> Num.is_min x = true.
Proof. destruct x as [s|s| |s m e]; cbn; congruence. Qed.

Lemma listing_price_min l :
  passes_filter l = true -> Num.is_min (listing_price l) = true.
Proof. intros H. apply is_price_is_min, safeNum_price, H. Qed.

Lemma price_below_Infinity x : Num.is_price x = true -> Num.lt x Num.Infinity = true.
Proof. destruct x as [s|s| |s m e]; cbn; try congruence; destruct s; reflexivity. Qed.

Lemma scan_listing_view st l :
  nullish l = false -> scan_listing st l = Normal (scan_view st l).
Proof.
  intros Hl. unfold scan_listing, scan_view, or_else, take_lower, qualifies,
    passes_filter, listing_hq, listing_world, listing_price.
  rewrite !(get_prop l _ Hl). cbn [bind cur_min fst snd].
  destruct st as [a aw n nw h hw]; cbn [cur_minAll cur_minAllW cur_minNQ
    cur_minNQW cur_minHQ cur_minHQW].
  destruct (Num.truthy (safeNum (prop l "pricePerUnit") Num.zero)); cbn.
  2: reflexivity.
  destruct (truthy (prop l "worldName")); cbn;
    destruct (Num.lt (safeNum (prop l "pricePerUnit") Num.zero) a); cbn;
    destruct (truthy (prop l "hq")); cbn;
    try destruct (Num.lt (safeNum (prop l "pricePerUnit") Num.zero) h); cbn;
    try destruct (Num.lt (safeNum (prop l "pricePerUnit") Num.zero) n); cbn;
    reflexivity.
Qed.

Lemma for_of_app {A St} (body : St -> A -> completion St) xs ys acc :
  for_of body (xs ++ ys) acc = (a <- for_of body xs acc ;; for_of body ys a).
Proof.
  revert acc. induction xs as [|x xs IH]; intros acc; cbn; [reflexivity|].
  destruct (body acc x); cbn; [apply IH | reflexivity].
Qed.

Lemma scan_from_view ls st :
  Forall (fun l => nullish l = false) ls ->
  for_of scan_listing ls st = Normal (fold_left scan_view ls st).
Proof.
  intros H. revert st. induction H as [|l ls Hl _ IH]; intros st; cbn.
  - reflexivity.
  - rewrite (scan_listing_view st l Hl). cbn. apply IH.
Qed.

Lemma cur_min_scan_view c st l :
  cur_min c (scan_view st l) = take_lower c (cur_min c st) l.
Proof. destruct c; cbn; now destruct (take_lower _ _ l). Qed.

Lemma cur_min_fold c ls st :
  cur_min c (fold_left scan_view ls st) = fold_left (take_lower c) ls (cur_min c st).
Proof.
  revert st. induction ls as [|l ls IH]; intros st; cbn; [reflexivity|].
  now rewrite IH, cur_min_scan_view.
Qed.

Lemma scan_listing_nullish st l : nullish l = true -> scan_listing st l = Throw.
Proof. destruct l; cbn; congruence. Qed.

Lemma scan_normal_listings ls st st' :
  for_of scan_listing ls st = Normal st' ->
  Forall (fun l => nullish l = false) ls.
Proof.
  revert st. induction ls as [|l ls IH]; intros st H; [constructor|].
  cbn in H. destruct (nullish l) eqn:N.
  - rewrite (scan_listing_nullish st l N) in H. discriminate.
  - constructor; [exact N|].
    rewrite (scan_listing_view st l N) in H. cbn in H. eapply IH, H.
Qed.

(** ** One minimum along the scan *)

Section Running.

Variable c : quality.

Lemma take_lower_cases acc l :
  take_lower c acc l = acc \/
  (qualifies c l = true /\ Num.lt (listing_price l) (fst acc) = true /\
   take_lower c acc l = (listing_price l, listing_world l)).
Proof.
  unfold take_lower.
  destruct (qualifies c l); cbn; [|now left].
  destruct (Num.lt (listing_price l) (fst acc)); [right; auto | now left].
Qed.

(** The scan only ever lowers a minimum, and strictly so when it
    touches it. *)
Lemma fold_take_lower_mono ls acc :
  fold_left (take_lower c) ls acc = acc \/
  Num.lt (fst (fold_left (take_lower c) ls acc)) (fst acc) = true.
Proof.
  revert acc. induction ls as [|l ls IH]; intros acc; cbn; [now left|].
  destruct (take_lower_cases acc l) as [E|(_ & L & E)]; rewrite E.
  - apply IH.
  - right. destruct (IH (listing_price l, listing_world l)) as [E'|L'].
    + rewrite E'. exact L.
    + eapply NumFacts.lt_trans; [exact L' | exact L].
Qed.

Lemma fold_take_lower_none ls acc :
  (forall l, In l ls -> qualifies c l = false) ->
  fold_left (take_lower c) ls acc = acc.
Proof.
  revert acc. induction ls as [|l ls IH]; intros acc H; cbn; [reflexivity|].
  unfold take_lower at 2. rewrite (H l (or_introl eq_refl)). cbn.
  apply IH. intros y Hy. apply H. now right.
Qed.

Lemma take_lower_is_min acc l :
  Num.is_min (fst acc) = true -> Num.is_min (fst (take_lower c acc l)) = true.
Proof.
  intros H. destruct (take_lower_cases acc l) as [E|(Q & _ & E)]; rewrite E.
  - exact H.
  - apply listing_price_min. unfold qualifies in Q.
    now apply andb_true_iff in Q.
Qed.

Lemma fold_take_lower_is_min ls acc :
  Num.is_min (fst acc) = true ->
  Num.is_min (fst (fold_left (take_lower c) ls acc)) = true.
Proof.
  revert acc. induction ls as [|l ls IH]; intros acc H; cbn; [exact H|].
  apply IH, take_lower_is_min, H.
Qed.

(** First seen wins: the listing that first shows the final minimum is
    the one whose server is kept. *)
Lemma fold_take_lower_first pre x post acc r :
  fold_left (take_lower c) (pre ++ x :: post) acc = r ->
  qualifies c x = true ->
  listing_price x = fst r ->
  fst acc <> fst r ->
  (forall y, In y pre -> qualifies c y = true -> listing_price y <> fst r) ->
  snd r = listing_world x.
Proof.
  revert acc. induction pre as [|y pre IH]; intros acc Hr Qx Px Hacc Hpre.
  - cbn in Hr.
    destruct (take_lower_cases acc x) as [E|(_ & L & E)]; rewrite E in Hr.
    + exfalso.
      destruct (fold_take_lower_mono post acc) as [E'|L']; rewrite Hr in *.
      * apply Hacc. now rewrite E'.
      * unfold take_lower in E. rewrite Qx in E. cbn in E.
        rewrite Px in E. rewrite L' in E.
        apply Hacc. now rewrite <- E.
    + destruct (fold_take_lower_mono post (listing_price x, listing_world x))
        as [E'|L']; rewrite Hr in *.
      * now rewrite E'.
      * cbn in L'. rewrite Px, NumFacts.lt_irrefl in L'. discriminate.
  - cbn in Hr. apply (IH (take_lower c acc y)); auto.
    + destruct (take_lower_cases acc y) as [E|(Q & _ & E)]; rewrite E.
      * exact Hacc.
      * cbn. apply Hpre; [now left | exact Q].
    + intros z Hz. apply Hpre. now right.
Qed.

End Running.

(** ** The three minima together *)

Lemma linked_init : linked minima_init.
Proof. repeat split. Qed.

Lemma linked_scan_view st l : linked st -> linked (scan_view st l).
Proof.
  destruct st as [a aw n nw h hw]. unfold linked, scan_view, take_lower, qualifies.
  cbn [cur_min cur_minAll cur_minNQ cur_minHQ cur_minAllW cur_minNQW cur_minHQW fst snd].
  intros (Ha & Hn & Hh & E). subst a.
  destruct (passes_filter l) eqn:P; cbn [andb]; [|cbn; auto].
  pose proof (listing_price_min l P) as Hp.
  destruct (listing_hq l); cbn [andb negb fst snd].
  - repeat split.
    + destruct (Num.lt (listing_price l) (Num.min n h)); assumption.
    + exact Hn.
    + destruct (Num.lt (listing_price l) h); assumption.
    + generalize (NumFacts.min_lower_right _ n h Hp Hn Hh).
      destruct (Num.lt (listing_price l) (Num.min n h)),
               (Num.lt (listing_price l) h); cbn [fst]; auto.
  - repeat split.
    + destruct (Num.lt (listing_price l) (Num.min n h)); assumption.
    + destruct (Num.lt (listing_price l) n); assumption.
    + exact Hh.
    + generalize (NumFacts.min_lower_left _ n h Hp Hn Hh).
      destruct (Num.lt (listing_price l) (Num.min n h)),
               (Num.lt (listing_price l) n); cbn [fst]; auto.
Qed.

Lemma linked_fold ls st : linked st -> linked (fold_left scan_view ls st).
Proof.
  revert st. induction ls as [|l ls IH]; intros st H; cbn; [exact H|].
  apply IH, linked_scan_view, H.
Qed.

(** ** One entry *)

Lemma raw_item_id_view it :
  nullish it = false -> raw_item_id it = Normal (raw_id_view it).
Proof.
  intros H. unfold raw_item_id, raw_id_view, or_else.
  rewrite !(get_prop it _ H). cbn.
  destruct (truthy (prop it "itemID")) eqn:E1; cbn; rewrite ?E1; [reflexivity|].
  destruct (truthy (prop it "itemId")) eqn:E2; cbn; rewrite ?E2; reflexivity.
Qed.

Lemma listings_of_view it :
  nullish it = false -> listings_of it = Normal (listings_view it).
Proof.
  intros H. unfold listings_of, listings_view. rewrite (get_prop it _ H). cbn.
  destruct (prop it "listings"); reflexivity.
Qed.

Lemma aggregate_entry_nullish it : nullish it = true -> aggregate_entry it = Throw.
Proof. destruct it; cbn; congruence. Qed.

Lemma aggregate_entry_view it :
  well_typed_entry it -> aggregate_entry it = Normal (entry_view it).
Proof.
  intros [H L]. unfold aggregate_entry, entry_view.
  rewrite (raw_item_id_view it H). cbn [bind].
  destruct (Num.truthy (safeNum (raw_id_view it) Num.zero)); cbn [negb]; [|reflexivity].
  rewrite (listings_of_view it H). cbn [bind]. unfold scan_listings.
  rewrite (scan_from_view _ _ L). cbn [bind].
  rewrite (get_prop it _ H). reflexivity.
Qed.

(** An entry that yields an aggregate was well typed. *)
Lemma aggregate_entry_some it k info :
  aggregate_entry it = Normal (Some (k, info)) ->
  well_typed_entry it /\ entry_view it = Some (k, info).
Proof.
  intros H. destruct (nullish it) eqn:N.
  { rewrite (aggregate_entry_nullish it N) in H. discriminate. }
  assert (W : well_typed_entry it).
  { split; [exact N|]. revert H. unfold aggregate_entry.
    rewrite (raw_item_id_view it N). cbn [bind].
    destruct (negb _); [discriminate|].
    rewrite (listings_of_view it N). cbn [bind]. unfold scan_listings.
    destruct (for_of scan_listing (listings_view it) minima_init) eqn:S;
      [|discriminate].
    intros _. eapply scan_normal_listings, S. }
  split; [exact W|]. rewrite (aggregate_entry_view it W) in H. congruence.
Qed.

Lemma entry_view_some it k info :
  entry_view it = Some (k, info) ->
  k = safeNum (raw_id_view it) Num.zero /\ Num.truthy k = true /\
  info = price_info (fold_left scan_view (listings_view it) minima_init)
                    (listings_view it) (prop it "lastUploadTime").
Proof.
  unfold entry_view.
  destruct (Num.truthy (safeNum (raw_id_view it) Num.zero)) eqn:T; [|discriminate].
  intros H. injection H as <- <-. auto.
Qed.

Lemma final_of_cur c st ls up :
  final_min c (price_info st ls up) = unset_to_zero (fst (cur_min c st)) /\
  final_world c (price_info st ls up) = snd (cur_min c st).
Proof. destruct c; split; reflexivity. Qed.

Lemma unset_to_zero_min x :
  Num.is_min x = true ->
  (x = Num.Infinity /\ unset_to_zero x = Num.zero) \/
  (Num.is_price x = true /\ unset_to_zero x = x).
Proof.
  destruct x as [s|s| |s m e]; cbn; try congruence.
  - destruct s; [congruence|]. now left.
  - right. split; [reflexivity|]. destruct s; reflexivity.
Qed.

Lemma cur_min_init c : cur_min c minima_init = (Num.Infinity, Str "").
Proof. destruct c; reflexivity. Qed.

(** What an aggregate says, in terms of the listings it was made from. *)
Lemma aggregate_entry_fold it k info :
  aggregate_entry it = Normal (Some (k, info)) ->
  well_typed_entry it /\
  listings_of it = Normal (listings_view it) /\
  get it "lastUploadTime" = Normal (lastUploadTime info) /\
  listingsFetched info = List.length (listings_view it) /\
  exists st,
    linked st /\
    forall c,
      cur_min c st =
        fold_left (take_lower c) (listings_view it) (Num.Infinity, Str "") /\
      final_min c info = unset_to_zero (fst (cur_min c st)) /\
      final_world c info = snd (cur_min c st).
Proof.
  intros H. apply aggregate_entry_some in H. destruct H as [W V].
  apply entry_view_some in V. destruct V as (_ & _ & ->).
  pose proof W as [N _].
  split; [exact W|]. split; [now apply listings_of_view|].
  split; [now apply get_prop|]. split; [reflexivity|].
  exists (fold_left scan_view (listings_view it) minima_init).
  split; [apply linked_fold, linked_init|].
  intros c. rewrite cur_min_fold, cur_min_init.
  split; [reflexivity|]. rewrite <- (cur_min_init c), <- cur_min_fold.
  apply final_of_cur.
Qed.

Lemma scan_view_skip st l : passes_filter l = false -> scan_view st l = st.
Proof.
  intros P. destruct st. unfold scan_view, take_lower, qualifies.
  rewrite P. reflexivity.
Qed.

Lemma normal_inj {A} (a b : A) : Normal a = Normal b -> a = b.
Proof. congruence. Qed.

(** ** The map of aggregates *)

Lemma Map_set_keys k v m :
  Num.is_price k = true -> keys_ok m -> keys_ok (Map_set k v m).
Proof.
  intros Hk. induction 1 as [|[k' v'] m Hk' Hm IH]; cbn.
  - repeat constructor. exact Hk.
  - destruct (Num.same_value_zero k k'); constructor; assumption.
Qed.

Lemma Map_has_set_same k v m :
  Num.is_price k = true -> keys_ok m -> Map_has k (Map_set k v m) = true.
Proof.
  intros Hk. unfold Map_has. induction 1 as [|[k' v'] m Hk' Hm IH]; cbn.
  - now rewrite (NumFacts.same_value_zero_refl k Hk).
  - destruct (Num.same_value_zero k k') eqn:E; cbn; rewrite E; [reflexivity|].
    exact IH.
Qed.

Lemma Map_has_set_mono k k' v m :
  Map_has k m = true -> Map_has k (Map_set k' v m) = true.
Proof.
  unfold Map_has. induction m as [|[k0 v0] m IH]; cbn; [discriminate|].
  destruct (Num.same_value_zero k' k0); cbn;
    destruct (Num.same_value_zero k k0); auto.
Qed.

Lemma Map_has_key_price k m :
  keys_ok m -> Map_has k m = true -> Num.is_price k = true.
Proof.
  unfold Map_has. induction 1 as [|[k' v'] m Hk' Hm IH]; cbn; [discriminate|].
  destruct (Num.same_value_zero k k') eqn:E; [|exact IH].
  intros _. now rewrite (NumFacts.same_value_zero_price k k' Hk' E).
Qed.

Lemma entry_view_key it k info :
  entry_view it = Some (k, info) ->
  raw_id_view it = Number k /\ Num.is_price k = true.
Proof.
  intros H. apply entry_view_some in H. destruct H as (K & T & _).
  assert (P : Num.is_price k = true) by (rewrite K in *; now apply safeNum_price).
  split; [|exact P]. revert K T. destruct (raw_id_view it) as [| | |n| | |]; cbn;
    try (intros ->; discriminate).
  destruct (Num.isFinite n); intros ->; [reflexivity | discriminate].
Qed.

Lemma entry_view_none it :
  entry_view it = None <-> finite_nonzero_number (raw_id_view it) = false.
Proof.
  unfold entry_view, finite_nonzero_number.
  destruct (raw_id_view it) as [| | |n| | |]; cbn; try tauto.
  destruct (Num.isFinite n); cbn; [|tauto].
  destruct (Num.truthy n); split; congruence.
Qed.

Lemma finite_nonzero_view it n :
  raw_id_view it = Number n -> Num.is_price n = true ->
  exists info, entry_view it = Some (n, info).
Proof.
  intros R P. unfold entry_view. rewrite R. cbn.
  unfold Num.is_price in P. apply andb_true_iff in P. destruct P as [F T].
  rewrite F, T. eauto.
Qed.

Lemma truthy_safeNum v :
  Num.truthy (safeNum v Num.zero) = finite_nonzero_number v.
Proof.
  destruct v as [| | |n| | |]; cbn; try reflexivity.
  destruct (Num.isFinite n); reflexivity.
Qed.

(** What an entry that did not throw contributed. *)
Lemma aggregate_entry_normal it r :
  aggregate_entry it = Normal r ->
  nullish it = false /\
  match r with
  | None => finite_nonzero_number (raw_id_view it) = false
  | Some (k, _) => raw_id_view it = Number k /\ Num.is_price k = true
  end.
Proof.
  intros H. destruct (nullish it) eqn:N.
  { rewrite (aggregate_entry_nullish it N) in H. discriminate. }
  split; [reflexivity|]. destruct r as [[k info]|].
  - apply aggregate_entry_some in H. destruct H as [_ V].
    now apply entry_view_key in V.
  - revert H. unfold aggregate_entry. rewrite (raw_item_id_view it N). cbn [bind].
    rewrite truthy_safeNum.
    destruct (finite_nonzero_number (raw_id_view it)); cbn [negb]; [|reflexivity].
    destruct (listings_of it) as [ls|]; cbn [bind]; [|discriminate].
    destruct (scan_listings ls) as [st|]; cbn [bind]; [|discriminate].
    destruct (get it "lastUploadTime") as [up|]; cbn [bind]; discriminate.
Qed.

(** The loop over well-typed entries ends with a map. *)
Lemma reduce_entries_total entries m0 :
  Forall well_typed_entry entries ->
  exists m, for_of reduce_entry entries m0 = Normal m.
Proof.
  intros W. revert m0. induction W as [|it entries Wit _ IH]; intros m0.
  - exists m0. reflexivity.
  - cbn. unfold reduce_entry at 1. rewrite (aggregate_entry_view it Wit). cbn.
    destruct (entry_view it) as [[k info]|]; apply IH.
Qed.

(** The loop that ended with a map: its keys are in order, it lost no
    key, and every entry that was not skipped has its key. *)
Lemma reduce_entries_keys entries m0 m :
  for_of reduce_entry entries m0 = Normal m -> keys_ok m0 ->
  keys_ok m /\
  (forall k, Map_has k m0 = true -> Map_has k m = true) /\
  (forall it, In it entries ->
     exists r, aggregate_entry it = Normal r /\
               forall k info, r = Some (k, info) -> Map_has k m = true).
Proof.
  revert m0. induction entries as [|it entries IH]; intros m0 R K0.
  - cbn in R. apply normal_inj in R. subst m.
    repeat split; auto. intros it [].
  - cbn in R. unfold reduce_entry at 1 in R.
    destruct (aggregate_entry it) as [r|] eqn:A; [|discriminate]. cbn in R.
    destruct r as [[k info]|].
    + destruct (aggregate_entry_normal it _ A) as (_ & _ & P).
      destruct (IH _ R (Map_set_keys _ _ _ P K0)) as (Km & Mono & Keys).
      split; [exact Km|]. split.
      * intros k' H. now apply Mono, Map_has_set_mono.
      * intros it' [<-|Hin]; [|now apply Keys].
        exists (Some (k, info)). split; [exact A|].
        intros k' info' E. injection E as <- <-.
        now apply Mono, Map_has_set_same.
    + destruct (IH _ R K0) as (Km & Mono & Keys).
      split; [exact Km|]. split; [exact Mono|].
      intros it' [<-|Hin]; [|now apply Keys].
      exists None. split; [exact A|]. discriminate.
Qed.

Lemma passes_filter_raw l :
  passes_filter l = finite_nonzero_number (prop l "pricePerUnit").
Proof. apply truthy_safeNum. Qed.

Lemma safeNum_fallback v : finite_number v = false -> safeNum v Num.zero = Num.zero.
Proof.
  destruct v as [| | |n| | |]; cbn; try reflexivity. now intros ->.
Qed.

(** ** The normalizer *)

Lemma filter_chars s : filter typeof_object (chars s) = [].
Proof. induction s as [|ch s IH]; cbn; [reflexivity | exact IH]. Qed.

Lemma filter_objects fields :
  Forall (fun kv : string * value => is_object (snd kv) = true) fields ->
  filter typeof_object (map snd fields) = map snd fields.
Proof.
  induction 1 as [|[k v] fields Hv _ IH]; cbn; [reflexivity|].
  cbn in Hv. destruct v; try discriminate. cbn. now rewrite IH.
Qed.

Lemma normalize_view data :
  normalizeCurrentDataResponse data =
  Normal
    (if negb (truthy data) then []
     else if truthy (prop data "items") then
       match prop data "items" with
       | Arr elems => elems
       | Obj fields => filter typeof_object (map snd fields)
       | _ => []
       end
     else if truthy (prop data "itemID") || truthy (prop data "listings")
          then [data] else []).
Proof.
  unfold normalizeCurrentDataResponse.
  destruct (truthy data) eqn:T; cbn [negb]; [|reflexivity].
  assert (N : nullish data = false) by (destruct data; cbn in *; congruence).
  unfold or_else. rewrite !(get_prop data _ N). cbn [bind].
  destruct (truthy (prop data "items")) eqn:Ti.
  - destruct (prop data "items") as [| |b|n|s|elems|fields]; cbn in *;
      try discriminate; try reflexivity.
    now rewrite filter_chars.
  - destruct (truthy (prop data "itemID")) eqn:Tid; cbn [orb bind].
    + now rewrite Tid.
    + destruct (truthy (prop data "listings")); reflexivity.
Qed.

(** ** Page navigation *)

Lemma ceiling_hundredths n :
  Qceiling (inject_Z n / inject_Z PAGE_SIZE) = ((n + 99) / 100)%Z.
Proof.
  unfold Qceiling, Qfloor, Qdiv, Qmult, Qinv, Qopp, inject_Z, PAGE_SIZE. cbn.
  rewrite Z.mul_1_r.
  pose proof (Z_div_mod_eq_full (- n) 100).
  pose proof (Z.mod_pos_bound (- n) 100).
  pose proof (Z_div_mod_eq_full (n + 99) 100).
  pose proof (Z.mod_pos_bound (n + 99) 100).
  lia.
Qed.

(** An entry with a usable identifier yields an aggregate. *)
Lemma aggregate_entry_defined it n :
  well_typed_entry it ->
  raw_item_id it = Normal (Number n) ->
  Num.is_price n = true ->
  exists info, aggregate_entry it = Normal (Some (n, info)).
Proof.
  intros W R P. rewrite (raw_item_id_view it (proj1 W)) in R.
  apply normal_inj in R. destruct (finite_nonzero_view it n R P) as [info V].
  exists info. now rewrite (aggregate_entry_view it W), V.
Qed.

(** ** Worked examples *)

Example safeNum_falls_back :
  safeNum (Number Num.NaN) Num.zero = Num.zero /\
  safeNum (Number Num.Infinity) Num.zero = Num.zero /\
  safeNum (Str "100") Num.zero = Num.zero /\
  safeNum Undefined Num.zero = Num.zero /\
  safeNum (Number (Num.of_Z 100)) Num.zero = Num.of_Z 100.
Proof. repeat split. Qed.

(** The whole fetcher on a mapping-shaped response, and on one that
    makes the loop throw. *)
Example fetch_mapping_response :
  fetchCurrentPrices
    (Obj [("items", Obj [("5", sample_tie_entry); ("0", sample_zero_id_entry)])]) []
  = [(Num.of_Z 5, sample_tie_info)].
Proof. reflexivity. Qed.

Example fetch_null_entry_keeps_map :
  fetchCurrentPrices (Obj [("items", Arr [Null])]) [(Num.of_Z 5, sample_tie_info)]
  = [(Num.of_Z 5, sample_tie_info)].
Proof. reflexivity. Qed.

(** Quality separation: an HQ listing at 50 on "X" and an NQ listing at 80
    on "Y" give NQ 80/"Y", HQ 50/"X" and overall 50/"X". *)
Example quality_separation :
  scan_listings [sample_listing 50 true "X"; sample_listing 80 false "Y"] =
  Normal {| cur_minAll := Num.of_Z 50; cur_minAllW := Str "X";
            cur_minNQ := Num.of_Z 80;  cur_minNQW := Str "Y";
            cur_minHQ := Num.of_Z 50;  cur_minHQW := Str "X" |}.
Proof. reflexivity. Qed.

(** A later entry with the same identifier replaces the aggregate and
    keeps the key's place. *)
Example later_entry_replaces :
  reduce_entries [sample_tie_entry; sample_mixed_entry] =
  Normal [(Num.of_Z 5, sample_mixed_info)].
Proof. reflexivity. Qed.

(** What well-typedness rules out: [null] as an entry, or as a listing,
    makes the first property read throw; the normalizer lets such an
    entry through, [typeof null] being "object". *)
Example null_entry_throws : reduce_entries [Null] = Throw.
Proof. reflexivity. Qed.

Example null_listing_throws : reduce_entries [sample_entry 5 [Null]] = Throw.
Proof. reflexivity. Qed.

Example normalizer_keeps_null :
  normalizeCurrentDataResponse (Obj [("items", Obj [("1", Null)])]) = Normal [Null].
Proof. reflexivity. Qed.

(** A mapping with a value that is no object: the value is dropped. *)
Example normalizer_drops_primitive :
  normalizeCurrentDataResponse
    (Obj [("items", Obj [("1", sample_entry 1 []); ("2", Number (Num.of_Z 2))])])
  = Normal [sample_entry 1 []].
Proof. reflexivity. Qed.

(** * Properties of the specification *)

(** C1 (as amended). When the reducer ends with a map, the identifier
    [it.itemID || it.itemId || it.item_id] of each entry is a key of that
    map exactly when it is a finite number other than zero, and the entry
    is skipped exactly when it is not. *)
Theorem key_iff_finite_nonzero_id entries m :
  reduce_entries entries = Normal m ->
  forall it, In it entries ->
    exists raw,
      raw_item_id it = Normal raw /\
      is_key raw m = finite_nonzero_number raw /\
      (aggregate_entry it = Normal None <-> finite_nonzero_number raw = false).
Proof.
  intros R it Hin.
  destruct (reduce_entries_keys entries [] m R (Forall_nil _)) as (Km & _ & Keys).
  destruct (Keys it Hin) as (r & A & Hr).
  destruct (aggregate_entry_normal it r A) as [N Hraw].
  exists (raw_id_view it). split; [now apply raw_item_id_view|]. split.
  - destruct r as [[k info]|].
    + destruct Hraw as [-> P]. cbn. rewrite (Hr k info eq_refl).
      symmetry. exact P.
    + rewrite Hraw. destruct (raw_id_view it) as [| | |n| | |]; try reflexivity.
      cbn in *. destruct (Map_has n m) eqn:Hm; [|reflexivity].
      pose proof (Map_has_key_price n m Km Hm) as P.
      unfold Num.is_price in P. congruence.
  - rewrite A. destruct r as [[k info]|].
    + destruct Hraw as [-> P]. cbn. unfold Num.is_price in P.
      split; congruence.
    + tauto.
Qed.

Lemma key_iff_finite_nonzero_id_witness :
  (exists raw,
     raw_item_id sample_tie_entry = Normal raw /\
     is_key raw [(Num.of_Z 5, sample_tie_info)] = finite_nonzero_number raw /\
     (aggregate_entry sample_tie_entry = Normal None <->
      finite_nonzero_number raw = false)) /\
  (exists raw,
     raw_item_id sample_zero_id_entry = Normal raw /\
     is_key raw [(Num.of_Z 5, sample_tie_info)] = finite_nonzero_number raw /\
     (aggregate_entry sample_zero_id_entry = Normal None <->
      finite_nonzero_number raw = false)).
Proof.
  split;
    apply (key_iff_finite_nonzero_id [sample_zero_id_entry; sample_tie_entry]
             [(Num.of_Z 5, sample_tie_info)] eq_refl);
    cbn; auto.
Defined.

(** C1 as stated fails: the entry [{ itemID: 0, listings: [...] }] has an
    identifier that is present and a finite number, and the reducer skips
    it, so that 0 is no key of the output. *)
Lemma zero_id_entry_has_no_key :
  get sample_zero_id_entry "itemID" = Normal (Number Num.zero) /\
  finite_number (Number Num.zero) = true /\
  aggregate_entry sample_zero_id_entry = Normal None /\
  reduce_entries [sample_zero_id_entry] = Normal [] /\
  ~ (is_key (Number Num.zero) [] = true <-> finite_number (Number Num.zero) = true).
Proof.
  repeat split; try reflexivity. intros [_ H]. specialize (H eq_refl). discriminate.
Qed.

(** C2. A listing whose price [safeNum] turns into a falsy number (zero,
    or the fallback for a non-number or a non-finite number) leaves the
    six loop variables as they are: the aggregate of an entry that holds
    it has the minima and provenance of the scan without it, while its
    listings-observed count includes it. *)
Theorem malformed_price_only_counts it k info pre bad post v :
  get bad "pricePerUnit" = Normal v ->
  Num.truthy (safeNum v Num.zero) = false ->
  listings_of it = Normal (pre ++ bad :: post) ->
  aggregate_entry it = Normal (Some (k, info)) ->
  (forall st, scan_listing st bad = Normal st) /\
  listingsFetched info = S (List.length pre + List.length post) /\
  exists st,
    scan_listings (pre ++ post) = Normal st /\
    forall c,
      final_min c info = unset_to_zero (fst (cur_min c st)) /\
      final_world c info = snd (cur_min c st).
Proof.
  intros Hv Hz HL H.
  assert (N : nullish bad = false) by (destruct bad; cbn in *; congruence).
  assert (P : passes_filter bad = false).
  { unfold passes_filter, listing_price. rewrite (get_prop bad _ N) in Hv.
    apply normal_inj in Hv. now rewrite Hv. }
  split.
  { intros st. rewrite (scan_listing_view st bad N). now rewrite scan_view_skip. }
  apply aggregate_entry_some in H. destruct H as [[Nit Wl] V].
  rewrite (listings_of_view it Nit) in HL. apply normal_inj in HL.
  apply entry_view_some in V. destruct V as (_ & _ & ->).
  rewrite HL in *. split.
  { cbn. rewrite length_app. cbn. lia. }
  exists (fold_left scan_view (pre ++ post) minima_init). split.
  - unfold scan_listings. apply scan_from_view.
    apply Forall_app in Wl. destruct Wl as [W1 W2].
    apply Forall_app. split; [exact W1 | now inversion W2].
  - intros c. rewrite !fold_left_app. cbn [fold_left].
    rewrite (scan_view_skip _ bad P). apply final_of_cur.
Qed.

Lemma malformed_price_only_counts_witness :
  (forall st, scan_listing st sample_bad_listing = Normal st) /\
  listingsFetched sample_mixed_info = 3%nat /\
  exists st,
    scan_listings [sample_listing 100 false "A"; sample_listing 90 true "C"]
      = Normal st /\
    forall c,
      final_min c sample_mixed_info = unset_to_zero (fst (cur_min c st)) /\
      final_world c sample_mixed_info = snd (cur_min c st).
Proof.
  apply (malformed_price_only_counts sample_mixed_entry (Num.of_Z 5)
           sample_mixed_info [sample_listing 100 false "A"] sample_bad_listing
           [sample_listing 90 true "C"] (Str "abc"));
    reflexivity.
Defined.

(** C3. First seen wins.  For each of the three minima: the listing that
    is first, in input order, among those the minimum ranges over to show
    the recorded minimum price is the one whose server is recorded; a
    later listing with the same price does not replace it, the update
    being under a strict [<]. *)
Theorem first_seen_listing_wins it k info c pre x post :
  aggregate_entry it = Normal (Some (k, info)) ->
  listings_of it = Normal (pre ++ x :: post) ->
  qualifies c x = true ->
  listing_price x = final_min c info ->
  (forall y, In y pre -> qualifies c y = true ->
             listing_price y <> final_min c info) ->
  final_world c info = listing_world x.
Proof.
  intros H HL Qx Px Hpre. apply aggregate_entry_fold in H.
  destruct H as (_ & L & _ & _ & st & K & F).
  rewrite L in HL. apply normal_inj in HL.
  destruct (F c) as (E & M & W). rewrite HL in E.
  assert (Hp : Num.is_price (listing_price x) = true).
  { apply safeNum_price. unfold qualifies, passes_filter, listing_price in Qx.
    now apply andb_true_iff in Qx. }
  assert (Im : Num.is_min (fst (cur_min c st)) = true).
  { rewrite E. now apply fold_take_lower_is_min. }
  destruct (unset_to_zero_min _ Im) as [[_ Z]|[_ Z]]; rewrite Z in M.
  { rewrite M in Px. rewrite Px in Hp. discriminate. }
  rewrite W. rewrite M in *.
  apply (fold_take_lower_first c pre x post (Num.Infinity, Str "")); auto.
  cbn [fst]. rewrite <- Px. intros C. rewrite <- C in Hp. discriminate.
Qed.

Lemma first_seen_listing_wins_witness :
  final_world NQ sample_tie_info = Str "A" /\
  final_world NQ sample_tie_info = listing_world (sample_listing 100 false "A").
Proof.
  split; [reflexivity|].
  apply (first_seen_listing_wins sample_tie_entry (Num.of_Z 5) sample_tie_info NQ
           [sample_listing 120 false "C"] (sample_listing 100 false "A")
           [sample_listing 100 false "B"]); try reflexivity.
  intros y [<-|[]] _. vm_compute. discriminate.
Defined.

(** C4. In every aggregate the reducer makes, the overall minimum is at
    most the NQ minimum when both are nonzero, and at most the HQ minimum
    when both are nonzero. *)
Theorem overall_min_at_most_quality_minima it k info :
  aggregate_entry it = Normal (Some (k, info)) ->
  (minAll info <> Num.zero -> minNQ info <> Num.zero ->
   Num.le (minAll info) (minNQ info) = true) /\
  (minAll info <> Num.zero -> minHQ info <> Num.zero ->
   Num.le (minAll info) (minHQ info) = true).
Proof.
  intros H. apply aggregate_entry_fold in H.
  destruct H as (_ & _ & _ & _ & st & (Ia & In' & Ih & E) & F).
  destruct (F Overall) as (_ & Ma & _), (F NQ) as (_ & Mn & _),
    (F HQ) as (_ & Mh & _).
  cbn in Ma, Mn, Mh. rewrite Ma, Mn, Mh. clear F Ma Mn Mh.
  rewrite (NumFacts.min_is_min _ _ In' Ih) in E.
  destruct (unset_to_zero_min _ Ia) as [[_ Za]|[_ Za]]; rewrite Za;
    [split; congruence|].
  split; intros _ Hq.
  - destruct (unset_to_zero_min _ In') as [[_ Zn]|[_ Zn]]; rewrite Zn in *;
      [congruence|].
    rewrite E. destruct (Num.lt (cur_minHQ st) (cur_minNQ st)) eqn:L.
    + now apply NumFacts.lt_le.
    + now apply NumFacts.le_refl.
  - destruct (unset_to_zero_min _ Ih) as [[_ Zh]|[_ Zh]]; rewrite Zh in *;
      [congruence|].
    rewrite E. destruct (Num.lt (cur_minHQ st) (cur_minNQ st)) eqn:L.
    + now apply NumFacts.le_refl.
    + now apply NumFacts.le_of_not_lt.
Qed.

Lemma overall_min_at_most_quality_minima_witness :
  Num.le (minAll sample_mixed_info) (minNQ sample_mixed_info) = true /\
  Num.le (minAll sample_mixed_info) (minHQ sample_mixed_info) = true.
Proof.
  destruct (overall_min_at_most_quality_minima sample_mixed_entry (Num.of_Z 5)
              sample_mixed_info) as [A B]; [reflexivity|].
  split; [apply A | apply B]; vm_compute; discriminate.
Defined.

(** C5. For every entry that yields an aggregate, the listings-observed
    count is the length of the raw listing sequence and the last-upload
    timestamp is the entry's own, verbatim; when no listing passes the
    price filter (in particular when there is none) all three minima are
    zero with empty provenance, and with no listing the count is zero. *)
Theorem listings_fetched_counts_raw it k info :
  aggregate_entry it = Normal (Some (k, info)) ->
  exists ls,
    listings_of it = Normal ls /\
    listingsFetched info = List.length ls /\
    get it "lastUploadTime" = Normal (lastUploadTime info) /\
    ((forall l, In l ls -> passes_filter l = false) ->
     forall c, final_min c info = Num.zero /\ final_world c info = Str "") /\
    (ls = [] ->
     listingsFetched info = 0%nat /\
     forall c, final_min c info = Num.zero /\ final_world c info = Str "").
Proof.
  intros H. apply aggregate_entry_fold in H.
  destruct H as (_ & L & U & Cn & st & _ & F).
  exists (listings_view it). repeat (split; [assumption|]).
  assert (G : (forall l, In l (listings_view it) -> passes_filter l = false) ->
              forall c, final_min c info = Num.zero /\ final_world c info = Str "").
  { intros Hbad c. destruct (F c) as (E & M & W). rewrite M, W, E.
    rewrite fold_take_lower_none; [split; reflexivity|].
    intros l Hl. unfold qualifies. now rewrite (Hbad l Hl). }
  split; [exact G|].
  intros E. split; [now rewrite Cn, E|]. apply G. rewrite E. intros l [].
Qed.

Lemma listings_fetched_counts_raw_witness :
  aggregate_entry sample_unpriced_entry =
    Normal (Some (Num.of_Z 5, sample_unpriced_info)) /\
  listingsFetched sample_unpriced_info = 2%nat /\
  exists ls,
    listings_of sample_unpriced_entry = Normal ls /\
    listingsFetched sample_unpriced_info = List.length ls /\
    get sample_unpriced_entry "lastUploadTime" =
      Normal (lastUploadTime sample_unpriced_info) /\
    ((forall l, In l ls -> passes_filter l = false) ->
     forall c, final_min c sample_unpriced_info = Num.zero /\
               final_world c sample_unpriced_info = Str "") /\
    (ls = [] ->
     listingsFetched sample_unpriced_info = 0%nat /\
     forall c, final_min c sample_unpriced_info = Num.zero /\
               final_world c sample_unpriced_info = Str "").
Proof.
  split; [reflexivity|]. split; [reflexivity|].
  apply (listings_fetched_counts_raw sample_unpriced_entry (Num.of_Z 5)).
  reflexivity.
Defined.

(** C6 (as amended). The normalizer never throws.  An [items] mapping
    gives those of its values whose [typeof] is "object", which is all of
    them when each is an entry object; an [items] array gives that array;
    a response whose [items] is falsy and whose [itemID] or [listings] is
    truthy gives the one-element sequence of itself; every other shape
    (a falsy response, a truthy [items] that is no object, or [items],
    [itemID] and [listings] all falsy) gives the empty sequence. *)
Theorem normalize_shapes data :
  exists r,
    normalizeCurrentDataResponse data = Normal r /\
    (forall fields, prop data "items" = Obj fields ->
       r = filter typeof_object (map snd fields) /\
       (Forall (fun kv => is_object (snd kv) = true) fields ->
        r = map snd fields)) /\
    (forall elems, prop data "items" = Arr elems -> r = elems) /\
    (truthy data = true -> truthy (prop data "items") = false ->
     truthy (prop data "itemID") || truthy (prop data "listings") = true ->
     r = [data]) /\
    (truthy data = false -> r = []) /\
    (truthy (prop data "items") = true ->
     typeof_object (prop data "items") = false -> r = []) /\
    (truthy (prop data "items") = false ->
     truthy (prop data "itemID") = false ->
     truthy (prop data "listings") = false -> r = []).
Proof.
  eexists. split; [apply normalize_view|].
  assert (T : forall v, prop data "items" = v -> truthy v = true ->
                        truthy data = true).
  { intros v Hv Tv. destruct data; cbn in *; subst; cbn in *; congruence. }
  repeat split.
  - rewrite (T _ H eq_refl), H. reflexivity.
  - intros Hall. rewrite (T _ H eq_refl), H. cbn. now apply filter_objects.
  - intros elems H. rewrite (T _ H eq_refl), H. reflexivity.
  - intros Td Ti Tc. now rewrite Td, Ti, Tc.
  - intros Td. now rewrite Td.
  - intros Ti To. rewrite (T _ eq_refl Ti), Ti. cbn.
    destruct (prop data "items"); cbn in *; congruence.
  - intros Ti Tid Tl. rewrite Ti, Tid, Tl. cbn. now destruct (negb (truthy data)).
Qed.

Lemma normalize_shapes_witness :
  normalizeCurrentDataResponse sample_mapping_response =
    Normal [sample_entry 100 []; sample_entry 200 []] /\
  normalizeCurrentDataResponse (sample_entry 5 []) = Normal [sample_entry 5 []] /\
  normalizeCurrentDataResponse Null = Normal [].
Proof.
  split; [|split].
  - destruct (normalize_shapes sample_mapping_response) as (r & -> & A & _).
    destruct (A _ eq_refl) as [_ B]. rewrite B; [reflexivity|].
    repeat constructor.
  - destruct (normalize_shapes (sample_entry 5 [])) as (r & -> & _ & _ & C & _).
    now rewrite C.
  - destruct (normalize_shapes Null) as (r & -> & _ & _ & _ & D & _).
    now rewrite D.
Defined.

(** C6 as stated fails: the bare object [{ itemID: 0 }] carries an
    [itemID] field and no [items], and the normalizer returns the empty
    sequence for it, not the one-element sequence of that object. *)
Lemma zero_id_response_is_dropped :
  has_field "itemID" sample_zero_id_response = true /\
  has_field "items" sample_zero_id_response = false /\
  normalizeCurrentDataResponse sample_zero_id_response = Normal [] /\
  normalizeCurrentDataResponse sample_zero_id_response
    <> Normal [sample_zero_id_response].
Proof. repeat split; try reflexivity. discriminate. Qed.

(** C7. The reducer is total on well-typed entries: the loop ends with a
    map, no entry throws, an identifier that is not a finite number makes
    [safeNum] fall back to zero and the entry is skipped, and a minimum
    none of whose listings has a finite nonzero price comes out as zero
    with the empty string as provenance. *)
Theorem reducer_never_throws entries :
  Forall well_typed_entry entries ->
  (exists m, reduce_entries entries = Normal m) /\
  (forall it, In it entries ->
     exists r,
       aggregate_entry it = Normal r /\
       (forall raw, raw_item_id it = Normal raw -> finite_number raw = false ->
                    safeNum raw Num.zero = Num.zero /\ r = None) /\
       (forall k info c,
          r = Some (k, info) ->
          (forall l, In l (listings_view it) ->
                     finite_nonzero_number (prop l "pricePerUnit") = false \/
                     qualifies c l = false) ->
          final_min c info = Num.zero /\ final_world c info = Str "")).
Proof.
  intros W. split.
  - apply reduce_entries_total, W.
  - intros it Hin.
    pose proof (proj1 (Forall_forall _ _) W it Hin) as Wit.
    exists (entry_view it). split; [now apply aggregate_entry_view|]. split.
    + intros raw Hraw Hfin. rewrite (raw_item_id_view it (proj1 Wit)) in Hraw.
      apply normal_inj in Hraw. subst raw.
      split; [now apply safeNum_fallback|].
      apply entry_view_none. destruct (raw_id_view it); cbn in *; try reflexivity.
      now rewrite Hfin.
    + intros k info c V Hbad. apply entry_view_some in V.
      destruct V as (_ & _ & ->).
      destruct (final_of_cur c (fold_left scan_view (listings_view it) minima_init)
                  (listings_view it) (prop it "lastUploadTime")) as [M Wd].
      rewrite M, Wd, cur_min_fold, cur_min_init, fold_take_lower_none.
      * split; reflexivity.
      * intros l Hl. destruct (Hbad l Hl) as [B|B]; [|exact B].
        unfold qualifies. now rewrite passes_filter_raw, B.
Qed.

Lemma reducer_never_throws_witness :
  exists m,
    reduce_entries [sample_malformed_entry; sample_zero_id_entry;
                    sample_unpriced_entry; Str "x"] = Normal m.
Proof.
  apply (reducer_never_throws [sample_malformed_entry; sample_zero_id_entry;
                               sample_unpriced_entry; Str "x"]).
  repeat constructor.
Defined.

(** C8. In every aggregate the overall minimum is the least of the NQ and
    HQ minima, a zero one standing for "none": the other one when exactly
    one is nonzero, [Math.min] of the two when both are, and zero when
    both are zero. *)
Theorem overall_min_is_least_quality_minimum it k info :
  aggregate_entry it = Normal (Some (k, info)) ->
  minAll info =
    match Num.nonzero (minNQ info), Num.nonzero (minHQ info) with
    | true, true => Num.min (minNQ info) (minHQ info)
    | true, false => minNQ info
    | false, true => minHQ info
    | false, false => Num.zero
    end.
Proof.
  intros H. apply aggregate_entry_fold in H.
  destruct H as (_ & _ & _ & _ & st & (Ia & In' & Ih & E) & F).
  destruct (F Overall) as (_ & Ma & _), (F NQ) as (_ & Mn & _),
    (F HQ) as (_ & Mh & _).
  cbn in Ma, Mn, Mh. rewrite Ma, Mn, Mh. clear F Ma Mn Mh.
  pose proof E as E'. rewrite (NumFacts.min_is_min _ _ In' Ih) in E'.
  destruct (unset_to_zero_min _ In') as [[Vn Zn]|[Pn Zn]],
           (unset_to_zero_min _ Ih) as [[Vh Zh]|[Ph Zh]];
    rewrite Zn, Zh.
  - rewrite Vn, Vh in E'. rewrite E'. reflexivity.
  - rewrite (NumFacts.nonzero_price _ Ph). cbn.
    rewrite Vn, (price_below_Infinity _ Ph) in E'. rewrite E'.
    destruct (unset_to_zero_min _ Ih) as [[V _]|[_ Z]]; [|exact Z].
    rewrite V in Ph. discriminate.
  - rewrite (NumFacts.nonzero_price _ Pn). cbn.
    rewrite Vh, NumFacts.lt_Infinity_left in E'. rewrite E'. exact Zn.
  - rewrite (NumFacts.nonzero_price _ Pn), (NumFacts.nonzero_price _ Ph).
    rewrite <- E.
    destruct (unset_to_zero_min _ Ia) as [[Va _]|[_ Za]]; [|exact Za].
    rewrite E' in Va. destruct (Num.lt (cur_minHQ st) (cur_minNQ st));
      [rewrite Va in Ph | rewrite Va in Pn]; discriminate.
Qed.

Lemma overall_min_is_least_quality_minimum_witness :
  minAll sample_mixed_info = Num.min (Num.of_Z 100) (Num.of_Z 90) /\
  minAll sample_tie_info = minNQ sample_tie_info.
Proof.
  split.
  - apply (overall_min_is_least_quality_minimum sample_mixed_entry (Num.of_Z 5)
             sample_mixed_info). reflexivity.
  - apply (overall_min_is_least_quality_minimum sample_tie_entry (Num.of_Z 5)
             sample_tie_info). reflexivity.
Defined.

(** C9. An empty provenance does not mean that no listing was found.
    Some well-typed entry yields an aggregate with nonzero overall and NQ
    minima whose provenance is the empty string; and whenever the loop
    body lets a listing that has no [worldName] lower a minimum, it
    records that price with the empty string as provenance. *)
Theorem nonzero_minimum_with_empty_provenance :
  (exists it k info,
     well_typed_entry it /\
     aggregate_entry it = Normal (Some (k, info)) /\
     minAll info <> Num.zero /\ minAllWorld info = Str "" /\
     minNQ info <> Num.zero /\ minNQWorld info = Str "") /\
  (forall c st x,
     nullish x = false ->
     has_field "worldName" x = false ->
     qualifies c x = true ->
     Num.lt (listing_price x) (fst (cur_min c st)) = true ->
     exists st',
       scan_listing st x = Normal st' /\
       cur_min c st' = (listing_price x, Str "")).
Proof.
  split.
  - exists sample_nameless_entry, (Num.of_Z 5), sample_nameless_info.
    split; [|repeat split; try reflexivity; vm_compute; discriminate].
    split; [reflexivity|]. repeat constructor.
  - intros c st x N Hw Q L. exists (scan_view st x).
    split; [now apply scan_listing_view|].
    rewrite cur_min_scan_view. unfold take_lower. rewrite Q, L. cbn.
    f_equal. unfold listing_world.
    now rewrite (prop_absent _ _ Hw).
Qed.

Lemma nonzero_minimum_with_empty_provenance_witness :
  exists st',
    scan_listing minima_init
      (Obj [("pricePerUnit", Number (Num.of_Z 100)); ("hq", Bool false)])
      = Normal st' /\
    cur_min NQ st' = (Num.of_Z 100, Str "").
Proof.
  apply (proj2 nonzero_minimum_with_empty_provenance NQ minima_init
           (Obj [("pricePerUnit", Number (Num.of_Z 100)); ("hq", Bool false)]));
    reflexivity.
Defined.

(** C10. [goToPage] clamps the requested page: the page it sets is
    [min(max(1, p), totalPages)], where [totalPages] is
    [max(1, ceil(length / 100))], the least count of hundred-item pages
    that holds the list and at least 1; so the page lies between 1 and
    [totalPages], and [totalPages] itself is left as it was. *)
Theorem goToPage_clamps p st :
  let len := Z.of_nat (List.length (displayIds st)) in
  page (goToPage p st) = Z.min (Z.max 1 p) (totalPages st) /\
  totalPages st = Z.max 1 ((len + 99) / 100)%Z /\
  ((len <= 100 * totalPages st)%Z /\
   ((1 < totalPages st)%Z -> (100 * (totalPages st - 1) < len)%Z)) /\
  (1 <= page (goToPage p st) <= totalPages st)%Z /\
  ((1 <= p <= totalPages st)%Z -> page (goToPage p st) = p) /\
  totalPages (goToPage p st) = totalPages st.
Proof.
  intros len.
  assert (E : totalPages st = Z.max 1 ((len + 99) / 100)%Z).
  { unfold totalPages. now rewrite ceiling_hundredths. }
  assert (Hlen : (0 <= len)%Z) by apply Nat2Z.is_nonneg.
  pose proof (Z_div_mod_eq_full (len + 99) 100) as D.
  pose proof (Z.mod_pos_bound (len + 99) 100) as B.
  assert (T : totalPages (goToPage p st) = totalPages st) by reflexivity.
  split; [reflexivity|]. split; [exact E|].
  rewrite T. unfold goToPage; cbn [page displayIds]. rewrite E.
  repeat split; lia.
Qed.

Lemma goToPage_clamps_witness :
  page (goToPage 7 {| displayIds := repeat 1%Z 201; page := 1%Z |}) = 3%Z /\
  page (goToPage (-4) {| displayIds := repeat 1%Z 201; page := 1%Z |}) = 1%Z /\
  page (goToPage 2 {| displayIds := repeat 1%Z 201; page := 1%Z |}) = 2%Z.
Proof.
  split; [|split].
  - destruct (goToPage_clamps 7 {| displayIds := repeat 1%Z 201; page := 1%Z |})
      as (-> & _). reflexivity.
  - destruct (goToPage_clamps (-4) {| displayIds := repeat 1%Z 201; page := 1%Z |})
      as (-> & _). reflexivity.
  - destruct (goToPage_clamps 2 {| displayIds := repeat 1%Z 201; page := 1%Z |})
      as (_ & _ & _ & _ & H & _). apply H. vm_compute. split; discriminate.
Defined.

(** * Further properties *)

(** ** The recorded minimum is the least price *)

Section Least.

Variable c : quality.

Lemma qualifies_price x : qualifies c x = true -> Num.is_price (listing_price x) = true.
Proof.
  intros Q. apply safeNum_price. unfold qualifies, passes_filter, listing_price in Q.
  now apply andb_true_iff in Q.
Qed.

(** No listing the minimum ranges over is below what the scan ends with. *)
Lemma fold_take_lower_bound ls acc y :
  In y ls -> qualifies c y = true ->
  Num.lt (listing_price y) (fst (fold_left (take_lower c) ls acc)) = false.
Proof.
  assert (Keep : forall rest acc0 p,
             Num.lt p (fst acc0) = false ->
             Num.lt p (fst (fold_left (take_lower c) rest acc0)) = false).
  { intros rest acc0 p H.
    destruct (fold_take_lower_mono c rest acc0) as [E|L]; [now rewrite E|].
    destruct (Num.lt p (fst (fold_left (take_lower c) rest acc0))) eqn:B;
      [|reflexivity].
    rewrite (NumFacts.lt_trans _ _ _ B L) in H. discriminate. }
  revert acc. induction ls as [|l ls IH]; intros acc Hin Q; [destruct Hin|].
  cbn. destruct Hin as [<-|Hin]; [|now apply IH].
  apply Keep. unfold take_lower. rewrite Q. cbn.
  destruct (Num.lt (listing_price l) (fst acc)) eqn:L; cbn.
  - apply NumFacts.lt_irrefl.
  - exact L.
Qed.

(** What the scan ends with is what it began with or belongs to a listing. *)
Lemma fold_take_lower_attained ls acc :
  fold_left (take_lower c) ls acc = acc \/
  exists x, In x ls /\ qualifies c x = true /\
            fold_left (take_lower c) ls acc = (listing_price x, listing_world x).
Proof.
  revert acc. induction ls as [|l ls IH]; intros acc; cbn; [now left|].
  destruct (IH (take_lower c acc l)) as [E|(x & Hx & Q & E)].
  - rewrite E. destruct (take_lower_cases c acc l) as [E'|(Q & _ & E')].
    + now left.
    + right. exists l. auto.
  - right. exists x. auto.
Qed.

End Least.

(** The final minimum of an aggregate, read off its listings. *)
Lemma final_min_cases it k info ls c :
  aggregate_entry it = Normal (Some (k, info)) ->
  listings_of it = Normal ls ->
  (final_min c info = Num.zero /\ final_world c info = Str "" /\
   forall y, In y ls -> qualifies c y = false) \/
  (exists x, In x ls /\ qualifies c x = true /\
             final_min c info = listing_price x /\
             final_world c info = listing_world x /\
             forall y, In y ls -> qualifies c y = true ->
                       Num.lt (listing_price y) (final_min c info) = false).
Proof.
  intros H HL. apply aggregate_entry_fold in H.
  destruct H as (_ & L & _ & _ & st & _ & F).
  rewrite L in HL. apply normal_inj in HL. subst ls.
  destruct (F c) as (E & M & W). rewrite M, W, E.
  pose proof (fold_take_lower_bound c (listings_view it) (Num.Infinity, Str "")) as B.
  destruct (fold_take_lower_attained c (listings_view it) (Num.Infinity, Str ""))
    as [A|(x & Hx & Q & A)]; rewrite A in *; cbn [fst snd] in *.
  - left. repeat split. intros y Hy.
    destruct (qualifies c y) eqn:Q; [|reflexivity].
    specialize (B y Hy Q).
    rewrite (price_below_Infinity _ (qualifies_price c y Q)) in B. discriminate.
  - right. exists x. pose proof (qualifies_price c x Q) as P.
    destruct (unset_to_zero_min _ (is_price_is_min _ P)) as [[V _]|[_ Z]].
    + rewrite V in P. discriminate.
    + rewrite Z. auto.
Qed.

Lemma price_sign m :
  Num.is_price m = true -> Num.lt Num.zero m = false -> Num.lt m Num.zero = true.
Proof.
  destruct m as [s|s| |s mm e]; cbn; try congruence. destruct s; cbn; congruence.
Qed.

(** X1. The minimum an aggregate records for a quality is at most the
    price of every listing of that quality that passes the price filter,
    and when there is such a listing it is the price of one of them, whose
    server is the recorded provenance. *)
Theorem recorded_minimum_is_least it k info ls c :
  aggregate_entry it = Normal (Some (k, info)) ->
  listings_of it = Normal ls ->
  (forall y, In y ls -> qualifies c y = true ->
             Num.le (final_min c info) (listing_price y) = true) /\
  ((exists y, In y ls /\ qualifies c y = true) ->
   exists x, In x ls /\ qualifies c x = true /\
             listing_price x = final_min c info /\
             listing_world x = final_world c info).
Proof.
  intros H HL.
  destruct (final_min_cases it k info ls c H HL)
    as [(_ & _ & None)|(x & Hx & Q & M & W & B)]; split.
  - intros y Hy Qy. rewrite (None y Hy) in Qy. discriminate.
  - intros (y & Hy & Qy). rewrite (None y Hy) in Qy. discriminate.
  - intros y Hy Qy. apply NumFacts.le_of_not_lt.
    + rewrite M. apply is_price_is_min, (qualifies_price c x Q).
    + apply is_price_is_min, (qualifies_price c y Qy).
    + now apply B.
  - intros _. exists x. auto.
Qed.

Lemma recorded_minimum_is_least_witness :
  (forall y, In y [sample_listing 100 false "A"; sample_bad_listing;
                   sample_listing 90 true "C"] ->
             qualifies HQ y = true ->
             Num.le (final_min HQ sample_mixed_info) (listing_price y) = true) /\
  ((exists y, In y [sample_listing 100 false "A"; sample_bad_listing;
                    sample_listing 90 true "C"] /\ qualifies HQ y = true) ->
   exists x, In x [sample_listing 100 false "A"; sample_bad_listing;
                   sample_listing 90 true "C"] /\
             qualifies HQ x = true /\
             listing_price x = final_min HQ sample_mixed_info /\
             listing_world x = final_world HQ sample_mixed_info).
Proof.
  apply (recorded_minimum_is_least sample_mixed_entry (Num.of_Z 5)
           sample_mixed_info); reflexivity.
Defined.

(** X2. A minimum of an aggregate is the zero sentinel exactly when no
    listing of that quality passes the price filter, and then its
    provenance is the empty string. *)
Theorem zero_minimum_iff_no_listing it k info ls c :
  aggregate_entry it = Normal (Some (k, info)) ->
  listings_of it = Normal ls ->
  (final_min c info = Num.zero <-> forall y, In y ls -> qualifies c y = false) /\
  (final_min c info = Num.zero -> final_world c info = Str "").
Proof.
  intros H HL.
  destruct (final_min_cases it k info ls c H HL)
    as [(Z & W & None)|(x & Hx & Q & M & _ & _)].
  - split; [split; auto | auto].
  - pose proof (qualifies_price c x Q) as P.
    assert (NZ : final_min c info <> Num.zero).
    { rewrite M. intros E. rewrite E in P. discriminate. }
    split; [split|]; intros A; try contradiction.
    rewrite (A x Hx) in Q. discriminate.
Qed.

Lemma zero_minimum_iff_no_listing_witness :
  (final_min HQ sample_tie_info = Num.zero <->
   forall y, In y [sample_listing 120 false "C"; sample_listing 100 false "A";
                   sample_listing 100 false "B"] -> qualifies HQ y = false) /\
  (final_min HQ sample_tie_info = Num.zero ->
   final_world HQ sample_tie_info = Str "").
Proof.
  apply (zero_minimum_iff_no_listing sample_tie_entry (Num.of_Z 5)
           sample_tie_info); reflexivity.
Defined.

(** X3. The three minimum prices do not depend on the order of the
    listings: two entries whose listing arrays are permutations of each
    other get the same minima (their provenance may differ on a tie). *)
Theorem minima_ignore_listing_order it k info ls it' k' info' ls' c :
  aggregate_entry it = Normal (Some (k, info)) ->
  listings_of it = Normal ls ->
  aggregate_entry it' = Normal (Some (k', info')) ->
  listings_of it' = Normal ls' ->
  Permutation ls ls' ->
  final_min c info = final_min c info'.
Proof.
  intros H HL H' HL' Perm.
  destruct (final_min_cases it k info ls c H HL)
    as [(Z & _ & None)|(x & Hx & Q & M & _ & B)],
     (final_min_cases it' k' info' ls' c H' HL')
    as [(Z' & _ & None')|(x' & Hx' & Q' & M' & _ & B')].
  - congruence.
  - apply (Permutation_in _ (Permutation_sym Perm)) in Hx'.
    rewrite (None x' Hx') in Q'. discriminate.
  - apply (Permutation_in _ Perm) in Hx.
    rewrite (None' x Hx) in Q. discriminate.
  - pose proof (B x' (Permutation_in _ (Permutation_sym Perm) Hx') Q') as L1.
    pose proof (B' x (Permutation_in _ Perm Hx) Q) as L2.
    rewrite M in *. rewrite M' in *.
    apply NumFacts.lt_total; auto;
      apply is_price_is_min; [apply (qualifies_price c x Q)
                             | apply (qualifies_price c x' Q')].
Qed.

Lemma minima_ignore_listing_order_witness :
  final_min NQ sample_tie_info =
  final_min NQ {| minAll := Num.of_Z 100; minAllWorld := Str "B";
                  minNQ := Num.of_Z 100; minNQWorld := Str "B";
                  minHQ := Num.zero; minHQWorld := Str "";
                  listingsFetched := 3;
                  lastUploadTime := Number (Num.of_Z 1700000000000) |}.
Proof.
  apply (minima_ignore_listing_order
           sample_tie_entry (Num.of_Z 5) sample_tie_info
           [sample_listing 120 false "C"; sample_listing 100 false "A";
            sample_listing 100 false "B"]
           (sample_entry 5 [sample_listing 100 false "B";
                            sample_listing 100 false "A";
                            sample_listing 120 false "C"])
           (Num.of_Z 5) _
           [sample_listing 100 false "B"; sample_listing 100 false "A";
            sample_listing 120 false "C"]); try reflexivity.
  apply Permutation_rev.
Defined.

(** ** The card of an aggregate *)

Lemma listing_world_shape x :
  listing_world x = Str "" \/ truthy (listing_world x) = true.
Proof.
  unfold listing_world. destruct (truthy (prop x "worldName")) eqn:T; auto.
Qed.

(** X4. A provenance the reducer records is the empty string or a truthy
    value, so the badge slot of a price row built from an aggregate holds
    the server badge (only in DC mode, beside a price that is shown, with
    the recorded provenance) or something React renders as nothing; a
    stray number never appears there. *)
Theorem badge_slot_of_aggregate it k info isDCMode hq :
  aggregate_entry it = Normal (Some (k, info)) ->
  (final_world (row_quality hq) info = Str "" \/ truthy (final_world (row_quality hq) info) = true) /\
  match row_badge (card_row isDCMode hq (Some info)) with
  | Badge w =>
      isDCMode = true /\ w = final_world (row_quality hq) info /\
      row_text (card_row isDCMode hq (Some info)) = Formatted (final_min (row_quality hq) info)
  | Stopped v => renders_nothing (Stopped v) = true
  end.
Proof.
  intros H.
  assert (S : final_world (row_quality hq) info = Str "" \/ truthy (final_world (row_quality hq) info) = true).
  { destruct (aggregate_entry_fold it k info H) as (_ & L & _).
    destruct (final_min_cases it k info _ (row_quality hq) H L)
      as [(_ & W & _)|(x & _ & _ & _ & W & _)].
    - now left.
    - rewrite W. apply listing_world_shape. }
  split; [exact S|]. cbn. unfold renderPriceRow. cbn.
  destruct isDCMode; [|reflexivity].
  destruct (Num.lt Num.zero (final_min (row_quality hq) info)); [|reflexivity].
  destruct S as [E|T].
  - rewrite E. reflexivity.
  - rewrite T. auto.
Qed.

Lemma badge_slot_of_aggregate_witness :
  (final_world NQ sample_nameless_info = Str "" \/
   truthy (final_world NQ sample_nameless_info) = true) /\
  match row_badge (card_row true false (Some sample_nameless_info)) with
  | Badge w =>
      true = true /\ w = final_world NQ sample_nameless_info /\
      row_text (card_row true false (Some sample_nameless_info)) =
        Formatted (final_min NQ sample_nameless_info)
  | Stopped v => renders_nothing (Stopped v) = true
  end.
Proof.
  apply (badge_slot_of_aggregate sample_nameless_entry (Num.of_Z 5)
           sample_nameless_info true false).
  reflexivity.
Defined.

(** X5. A price row built from an aggregate shows a dash exactly when no
    listing of its quality passes the price filter or one that does has a
    price below zero; otherwise it shows the recorded minimum. *)
Theorem dash_iff_no_positive_minimum it k info ls isDCMode hq :
  aggregate_entry it = Normal (Some (k, info)) ->
  listings_of it = Normal ls ->
  (row_text (card_row isDCMode hq (Some info)) = Dash <->
   (forall y, In y ls -> qualifies (row_quality hq) y = false) \/
   (exists y, In y ls /\ qualifies (row_quality hq) y = true /\
              Num.lt (listing_price y) Num.zero = true)) /\
  (row_text (card_row isDCMode hq (Some info)) <> Dash ->
   row_text (card_row isDCMode hq (Some info)) = Formatted (final_min (row_quality hq) info)).
Proof.
  intros H HL. cbn. split.
  2: { destruct (Num.lt Num.zero (final_min (row_quality hq) info)); congruence. }
  destruct (final_min_cases it k info ls (row_quality hq) H HL)
    as [(Z & _ & None)|(x & Hx & Q & M & _ & B)].
  - rewrite Z. cbn. split; auto.
  - pose proof (qualifies_price (row_quality hq) x Q) as P. rewrite M in *.
    destruct (Num.lt Num.zero (listing_price x)) eqn:Pos; split.
    + discriminate.
    + intros [None|(y & Hy & Qy & Neg)].
      * rewrite (None x Hx) in Q. discriminate.
      * specialize (B y Hy Qy).
        rewrite (NumFacts.lt_trans _ _ _ Neg Pos) in B. discriminate.
    + intros _. right. exists x. repeat split; auto. now apply price_sign.
    + reflexivity.
Qed.

Lemma dash_iff_no_positive_minimum_witness :
  (row_text (card_row true true (Some sample_tie_info)) = Dash <->
   (forall y, In y [sample_listing 120 false "C"; sample_listing 100 false "A";
                    sample_listing 100 false "B"] -> qualifies HQ y = false) \/
   (exists y, In y [sample_listing 120 false "C"; sample_listing 100 false "A";
                    sample_listing 100 false "B"] /\ qualifies HQ y = true /\
              Num.lt (listing_price y) Num.zero = true)) /\
  (row_text (card_row true true (Some sample_tie_info)) <> Dash ->
   row_text (card_row true true (Some sample_tie_info)) =
     Formatted (final_min HQ sample_tie_info)).
Proof.
  apply (dash_iff_no_positive_minimum sample_tie_entry (Num.of_Z 5)
           sample_tie_info _ true true); reflexivity.
Defined.

(** ** Lookups in the map of aggregates *)

Lemma same_value_zero_same x : Num.same_value_zero x x = true.
Proof.
  destruct x as [s|s| |s m e]; try reflexivity; try (destruct s; reflexivity).
  apply NumFacts.same_value_zero_refl. reflexivity.
Qed.

Lemma Map_get_set_same k v m : Map_get k (Map_set k v m) = Some v.
Proof.
  induction m as [|[k0 v0] m IH]; cbn.
  - now rewrite same_value_zero_same.
  - destruct (Num.same_value_zero k k0) eqn:E; cbn; now rewrite E.
Qed.

Lemma Map_get_set_other k k' v m :
  keys_ok m -> Num.same_value_zero k k' = false ->
  Map_get k (Map_set k' v m) = Map_get k m.
Proof.
  intros K D. induction K as [|[k0 v0] m P _ IH]; cbn.
  - now rewrite D.
  - cbn in P. destruct (Num.same_value_zero k' k0) eqn:E; cbn.
    + rewrite (NumFacts.same_value_zero_price k' k0 P E) in D. now rewrite D.
    + destruct (Num.same_value_zero k k0); [reflexivity | exact IH].
Qed.

Lemma Map_get_set_inv k k' v m info :
  keys_ok m -> Num.is_price k' = true ->
  Map_get k (Map_set k' v m) = Some info ->
  (k = k' /\ info = v) \/ Map_get k m = Some info.
Proof.
  intros K P H. destruct (Num.same_value_zero k k') eqn:E.
  - left. rewrite (NumFacts.same_value_zero_price k k' P E) in *.
    rewrite Map_get_set_same in H. split; congruence.
  - right. now rewrite (Map_get_set_other k k' v m K E) in H.
Qed.

Lemma Map_set_length k v m :
  (List.length (Map_set k v m) <= S (List.length m))%nat.
Proof.
  induction m as [|[k0 v0] m IH]; cbn; [lia|].
  destruct (Num.same_value_zero k k0); cbn; lia.
Qed.

Lemma Map_set_In_key k v m x :
  In x (map fst (Map_set k v m)) -> x = k \/ In x (map fst m).
Proof.
  induction m as [|[k0 v0] m IH]; cbn.
  - intros [<-|[]]. now left.
  - destruct (Num.same_value_zero k k0); cbn; intros [<-|H]; auto.
    destruct (IH H); auto.
Qed.

Lemma Map_set_NoDup k v m :
  keys_ok m -> NoDup (map fst m) -> NoDup (map fst (Map_set k v m)).
Proof.
  intros K. induction K as [|[k0 v0] m P _ IH]; cbn; intros N.
  - repeat constructor. intros [].
  - cbn in P. inversion N as [|? ? Hnot Hrest]; subst.
    destruct (Num.same_value_zero k k0) eqn:E; cbn; [exact N|].
    constructor; [|now apply IH].
    intros Hin. apply Map_set_In_key in Hin. destruct Hin as [->|Hin]; [|auto].
    rewrite same_value_zero_same in E. discriminate.
Qed.

(** The loop from any map: where each binding of the result comes from. *)
Lemma reduce_entries_origin entries m0 m k info :
  for_of reduce_entry entries m0 = Normal m -> keys_ok m0 ->
  Map_get k m = Some info ->
  Map_get k m0 = Some info \/
  exists it, In it entries /\ aggregate_entry it = Normal (Some (k, info)).
Proof.
  revert m0. induction entries as [|it entries IH]; intros m0 R K0 G.
  - cbn in R. apply normal_inj in R. subst m. now left.
  - cbn in R. unfold reduce_entry at 1 in R.
    destruct (aggregate_entry it) as [r|] eqn:A; [|discriminate]. cbn in R.
    destruct r as [[k' info']|].
    + destruct (aggregate_entry_normal it _ A) as (_ & _ & P).
      destruct (IH _ R (Map_set_keys _ _ _ P K0) G) as [G0|(it' & Hin & A')].
      * destruct (Map_get_set_inv _ _ _ _ _ K0 P G0) as [[-> ->]|G1];
          [right; exists it; cbn; auto | now left].
      * right. exists it'. cbn. auto.
    + destruct (IH _ R K0 G) as [G0|(it' & Hin & A')]; [now left|].
      right. exists it'. cbn. auto.
Qed.

(** Entries that do not write a key leave its binding alone. *)
Lemma reduce_entries_untouched entries m0 m k :
  for_of reduce_entry entries m0 = Normal m -> keys_ok m0 ->
  (forall it info, In it entries -> aggregate_entry it <> Normal (Some (k, info))) ->
  Map_get k m = Map_get k m0.
Proof.
  revert m0. induction entries as [|it entries IH]; intros m0 R K0 Hk.
  - cbn in R. apply normal_inj in R. now subst m.
  - cbn in R. unfold reduce_entry at 1 in R.
    destruct (aggregate_entry it) as [r|] eqn:A; [|discriminate]. cbn in R.
    assert (Hk' : forall it' info, In it' entries ->
                    aggregate_entry it' <> Normal (Some (k, info)))
      by (intros it' info Hin; apply Hk; now right).
    destruct r as [[k' info']|].
    + destruct (aggregate_entry_normal it _ A) as (_ & _ & P).
      rewrite (IH _ R (Map_set_keys _ _ _ P K0) Hk').
      apply Map_get_set_other; [exact K0|].
      destruct (Num.same_value_zero k k') eqn:E; [|reflexivity].
      exfalso. apply (Hk it info' (or_introl eq_refl)).
      now rewrite (NumFacts.same_value_zero_price k k' P E).
    + now apply IH.
Qed.

Lemma reduce_entries_shape entries m0 m :
  for_of reduce_entry entries m0 = Normal m -> keys_ok m0 ->
  NoDup (map fst m0) ->
  NoDup (map fst m) /\
  (List.length m <= List.length m0 + List.length entries)%nat.
Proof.
  revert m0. induction entries as [|it entries IH]; intros m0 R K0 N.
  - cbn in R. apply normal_inj in R. subst m. split; [exact N | lia].
  - cbn in R. unfold reduce_entry at 1 in R.
    destruct (aggregate_entry it) as [r|] eqn:A; [|discriminate]. cbn in R.
    destruct r as [[k' info']|].
    + destruct (aggregate_entry_normal it _ A) as (_ & _ & P).
      destruct (IH _ R (Map_set_keys _ _ _ P K0) (Map_set_NoDup _ _ _ K0 N))
        as [N' L].
      split; [exact N'|]. pose proof (Map_set_length k' info' m0). cbn. lia.
    + destruct (IH _ R K0 N) as [N' L]. split; [exact N'|]. cbn. lia.
Qed.

(** X6. The last entry with an identifier wins: when the loop ends with a
    map, the aggregate the page reads with [priceMap.get] for a key is
    the one of the last entry of the input that carries that key. *)
Theorem last_entry_wins pre it post k info m :
  reduce_entries (pre ++ it :: post) = Normal m ->
  aggregate_entry it = Normal (Some (k, info)) ->
  (forall it' info', In it' post ->
                     aggregate_entry it' <> Normal (Some (k, info'))) ->
  priceMap_get (Number k) m = Some info.
Proof.
  intros R A Hpost. unfold reduce_entries in R. rewrite for_of_app in R.
  destruct (for_of reduce_entry pre []) as [m1|] eqn:R1; [|discriminate].
  cbn [bind] in R.
  destruct (reduce_entries_keys pre [] m1 R1 (Forall_nil _)) as (K1 & _).
  cbn in R. unfold reduce_entry at 1 in R. rewrite A in R. cbn in R.
  destruct (aggregate_entry_normal it _ A) as (_ & _ & P).
  cbn. rewrite (reduce_entries_untouched post _ m k R (Map_set_keys _ _ _ P K1)).
  - apply Map_get_set_same.
  - intros it' info' Hin. now apply Hpost.
Qed.

Lemma last_entry_wins_witness :
  priceMap_get (Number (Num.of_Z 5)) [(Num.of_Z 5, sample_mixed_info)]
  = Some sample_mixed_info.
Proof.
  apply (last_entry_wins [sample_tie_entry] sample_mixed_entry
           [sample_zero_id_entry] (Num.of_Z 5) sample_mixed_info).
  - reflexivity.
  - reflexivity.
  - intros it' info' [<-|[]]. vm_compute. discriminate.
Defined.

(** X7. The map the loop ends with holds each key once, every key is a
    finite number other than zero, and it has no more bindings than the
    input has entries. *)
Theorem output_keys_distinct entries m :
  reduce_entries entries = Normal m ->
  NoDup (map fst m) /\
  Forall (fun kv => finite_nonzero_number (Number (fst kv)) = true) m /\
  (List.length m <= List.length entries)%nat.
Proof.
  intros R.
  destruct (reduce_entries_keys entries [] m R (Forall_nil _)) as (K & _).
  destruct (reduce_entries_shape entries [] m R (Forall_nil _) (NoDup_nil _))
    as [N L].
  split; [exact N|]. split; [exact K | exact L].
Qed.

Lemma output_keys_distinct_witness :
  NoDup (map fst [(Num.of_Z 5, sample_mixed_info)]) /\
  Forall (fun kv => finite_nonzero_number (Number (fst kv)) = true)
         [(Num.of_Z 5, sample_mixed_info)] /\
  (List.length [(Num.of_Z 5, sample_mixed_info)] <=
   List.length [sample_tie_entry; sample_zero_id_entry; sample_mixed_entry])%nat.
Proof.
  apply (output_keys_distinct
           [sample_tie_entry; sample_zero_id_entry; sample_mixed_entry]).
  reflexivity.
Defined.

(** X8. Nothing is made up: every aggregate the page can read from the
    map the loop ends with, with [priceMap.get], is the aggregate of some
    entry of the input, stored under that entry's own identifier. *)
Theorem lookup_comes_from_entry entries m id info :
  reduce_entries entries = Normal m ->
  priceMap_get id m = Some info ->
  exists it k,
    id = Number k /\ In it entries /\
    aggregate_entry it = Normal (Some (k, info)).
Proof.
  intros R G. destruct id as [| | |k| | |]; try discriminate. cbn in G.
  destruct (reduce_entries_origin entries [] m k info R (Forall_nil _) G)
    as [G0|(it & Hin & A)]; [discriminate|].
  exists it, k. auto.
Qed.

Lemma lookup_comes_from_entry_witness :
  exists it k,
    Number (Num.of_Z 5) = Number k /\
    In it [sample_tie_entry; sample_zero_id_entry] /\
    aggregate_entry it = Normal (Some (k, sample_tie_info)).
Proof.
  apply (lookup_comes_from_entry [sample_tie_entry; sample_zero_id_entry]
           [(Num.of_Z 5, sample_tie_info)]); reflexivity.
Defined.

(** ** The page window *)

Lemma firstn_then_firstn {A : Type} (a b : nat) (l : list A) :
  firstn a l ++ firstn b (skipn a l) = firstn (a + b) l.
Proof.
  revert l. induction a as [|a IH]; intros l; [reflexivity|].
  destruct l as [|x l]; cbn.
  - now rewrite firstn_nil.
  - now rewrite IH.
Qed.

Lemma total_pages_value st :
  totalPages st =
  Z.max 1 ((Z.of_nat (List.length (displayIds st)) + 99) / 100)%Z.
Proof. unfold totalPages. now rewrite ceiling_hundredths. Qed.

(** From page 1 on, the window is the next hundred identifiers after the
    pages before it. *)
Lemma targetIds_window st :
  (1 <= page st)%Z ->
  targetIds st =
  firstn 100 (skipn (100 * Z.to_nat (page st - 1)) (displayIds st)).
Proof.
  intros Hp. unfold targetIds, Array_slice, PAGE_SIZE.
  set (l := displayIds st). set (len := Z.of_nat (List.length l)).
  assert (Hlen : (0 <= len)%Z) by apply Nat2Z.is_nonneg.
  destruct (Z.ltb_spec ((page st - 1) * 100) 0) as [C|_]; [lia|].
  destruct (Z.ltb_spec ((page st - 1) * 100 + 100) 0) as [C|_]; [lia|].
  replace (100 * Z.to_nat (page st - 1))%nat
    with (Z.to_nat ((page st - 1) * 100)) by lia.
  set (start := ((page st - 1) * 100)%Z) in *.
  destruct (Z.le_gt_cases len start) as [Far|Near].
  - rewrite (Z.min_r start len) by lia.
    rewrite !skipn_all2 by (unfold len in *; lia).
    now rewrite !firstn_nil.
  - rewrite (Z.min_l start len) by lia.
    destruct (Z.le_gt_cases (start + 100) len) as [Full|Short].
    + rewrite (Z.min_l (start + 100) len) by lia. f_equal. lia.
    + rewrite (Z.min_r (start + 100) len) by lia.
      rewrite !firstn_all2; [reflexivity| |];
        rewrite length_skipn; unfold len in *; lia.
Qed.

Lemma targetIds_length st :
  (1 <= page st)%Z ->
  Z.of_nat (List.length (targetIds st)) =
  Z.max 0 (Z.min 100 (Z.of_nat (List.length (displayIds st))
                      - 100 * (page st - 1)))%Z.
Proof.
  intros Hp. rewrite (targetIds_window st Hp).
  rewrite length_firstn, length_skipn. lia.
Qed.

(** X9. [goToPage] never lands on a blank page: when there are results,
    the window of the page it sets holds at least one identifier and at
    most a hundred, namely what is left after the pages before it. *)
Theorem goToPage_window_not_blank p st :
  displayIds st <> [] ->
  targetIds (goToPage p st) <> [] /\
  (List.length (targetIds (goToPage p st)) <= 100)%nat /\
  Z.of_nat (List.length (targetIds (goToPage p st))) =
    Z.min 100 (Z.of_nat (List.length (displayIds st))
               - 100 * (page (goToPage p st) - 1))%Z.
Proof.
  intros Hne.
  assert (Hlen : (0 < Z.of_nat (List.length (displayIds st)))%Z).
  { destruct (displayIds st); [congruence | cbn [List.length]; lia]. }
  pose proof (total_pages_value st) as T.
  pose proof (Z_div_mod_eq_full (Z.of_nat (List.length (displayIds st)) + 99) 100) as D.
  pose proof (Z.mod_pos_bound (Z.of_nat (List.length (displayIds st)) + 99) 100) as B.
  assert (Hp : (1 <= page (goToPage p st))%Z).
  { change (page (goToPage p st)) with (Z.min (Z.max 1 p) (totalPages st)). lia. }
  pose proof (targetIds_length (goToPage p st) Hp) as L.
  change (displayIds (goToPage p st)) with (displayIds st) in L.
  change (page (goToPage p st)) with (Z.min (Z.max 1 p) (totalPages st)) in *.
  split; [|split].
  - intros E. rewrite E in L. cbn [List.length Z.of_nat] in L. lia.
  - lia.
  - lia.
Qed.

Lemma goToPage_window_not_blank_witness :
  targetIds (goToPage 9 {| displayIds := repeat 7%Z 201; page := 1%Z |}) <> [] /\
  (List.length (targetIds (goToPage 9 {| displayIds := repeat 7%Z 201;
                                          page := 1%Z |})) <= 100)%nat /\
  Z.of_nat (List.length (targetIds (goToPage 9 {| displayIds := repeat 7%Z 201;
                                                  page := 1%Z |}))) =
    Z.min 100 (Z.of_nat (List.length (repeat 7%Z 201))
               - 100 * (page (goToPage 9 {| displayIds := repeat 7%Z 201;
                                            page := 1%Z |}) - 1))%Z.
Proof.
  apply (goToPage_window_not_blank 9 {| displayIds := repeat 7%Z 201; page := 1%Z |}).
  discriminate.
Defined.

(** X10. From page 1 on, the window is blank exactly when there are no
    results or the page is past the last one. *)
Theorem window_blank_iff st :
  (1 <= page st)%Z ->
  (targetIds st = [] <-> displayIds st = [] \/ (totalPages st < page st)%Z).
Proof.
  intros Hp.
  pose proof (total_pages_value st) as T.
  pose proof (Z_div_mod_eq_full (Z.of_nat (List.length (displayIds st)) + 99) 100) as D.
  pose proof (Z.mod_pos_bound (Z.of_nat (List.length (displayIds st)) + 99) 100) as B.
  pose proof (targetIds_length st Hp) as L.
  assert (N : forall (l : list Z), l = [] <-> Z.of_nat (List.length l) = 0%Z).
  { intros l. destruct l; cbn; split; intros; congruence || lia. }
  rewrite (N (targetIds st)), (N (displayIds st)). lia.
Qed.

Lemma window_blank_iff_witness :
  targetIds {| displayIds := repeat 7%Z 201; page := 4%Z |} = [] <->
  repeat 7%Z 201 = [] \/
  (totalPages {| displayIds := repeat 7%Z 201; page := 4%Z |} < 4)%Z.
Proof.
  apply (window_blank_iff {| displayIds := repeat 7%Z 201; page := 4%Z |}).
  cbn. lia.
Defined.

Lemma windows_concat {A : Type} (l : list A) n :
  List.concat (map (fun i => firstn 100 (skipn (100 * i) l)) (seq 0 n))
  = firstn (100 * n) l.
Proof.
  induction n as [|n IH]; [reflexivity|].
  rewrite seq_S, map_app, concat_app, IH. cbn [map List.concat].
  rewrite app_nil_r, firstn_then_firstn. f_equal. lia.
Qed.

(** X11. The pages cover the results: the windows of pages 1 to
    [totalPages], one after the other, are the list of results, each
    identifier at its place, none lost and none repeated. *)
Theorem pages_cover_results st :
  List.concat (map (fun p => targetIds {| displayIds := displayIds st; page := p |})
              (all_pages st))
  = displayIds st.
Proof.
  unfold all_pages. rewrite map_map.
  rewrite (map_ext _ (fun i => firstn 100 (skipn (100 * i) (displayIds st)))).
  - rewrite windows_concat. apply firstn_all2.
    pose proof (total_pages_value st) as T.
    pose proof (Z_div_mod_eq_full (Z.of_nat (List.length (displayIds st)) + 99) 100) as D.
    pose proof (Z.mod_pos_bound (Z.of_nat (List.length (displayIds st)) + 99) 100) as B.
    lia.
  - intros i. rewrite targetIds_window by (cbn; lia). cbn [page displayIds].
    do 2 f_equal. lia.
Qed.

(** ** The pagination buttons *)

(** X12. Where a button is enabled it moves by exactly one page, and the
    other button brings the reader back: Next then Previous, and (from a
    page that is not past the last) Previous then Next, restore the
    state. *)
Theorem next_and_prev_are_inverse st :
  ((1 <= page st)%Z -> next_disabled st = false ->
   page (click_next st) = (page st + 1)%Z /\
   prev_disabled (click_next st) = false /\
   click_prev (click_next st) = st) /\
  ((page st <= totalPages st)%Z -> prev_disabled st = false ->
   page (click_prev st) = (page st - 1)%Z /\
   next_disabled (click_prev st) = false /\
   click_next (click_prev st) = st).
Proof.
  destruct st as [ids pg].
  unfold next_disabled, prev_disabled, click_next, click_prev, goToPage.
  cbn [page displayIds].
  set (t := totalPages {| displayIds := ids; page := pg |}).
  assert (T : forall q, totalPages {| displayIds := ids; page := q |} = t)
    by reflexivity.
  split; intros Hp Hd; rewrite !T.
  - apply Z.leb_gt in Hd.
    replace (Z.min (Z.max 1 (pg + 1)) t) with (pg + 1)%Z by lia.
    repeat split.
    + apply Z.leb_gt. lia.
    + f_equal. lia.
  - apply Z.leb_gt in Hd.
    replace (Z.min (Z.max 1 (pg - 1)) t) with (pg - 1)%Z by lia.
    repeat split.
    + apply Z.leb_gt. lia.
    + f_equal. lia.
Qed.

Lemma next_and_prev_are_inverse_witness :
  click_prev (click_next {| displayIds := repeat 7%Z 201; page := 2%Z |})
  = {| displayIds := repeat 7%Z 201; page := 2%Z |}.
Proof.
  apply (proj1 (next_and_prev_are_inverse
                  {| displayIds := repeat 7%Z 201; page := 2%Z |}));
    [cbn; lia | reflexivity].
Defined.

(** ** The search handler *)

Lemma or_else_view o k1 k2 :
  nullish o = false ->
  or_else (get o k1) (get o k2) =
  Normal (if truthy (prop o k1) then prop o k1 else prop o k2).
Proof.
  intros N. unfold or_else. rewrite !(get_prop o _ N). cbn.
  now destruct (truthy (prop o k1)).
Qed.

Lemma row_id_throws r :
  or_else (get r "row_id") (get r "id") = Throw <-> nullish r = true.
Proof.
  destruct (nullish r) eqn:N.
  - destruct r; cbn in *; try discriminate; tauto.
  - rewrite (or_else_view r _ _ N). split; discriminate.
Qed.

Lemma Array_map_length {A B : Type} (f : A -> completion B) xs ys :
  Array_map f xs = Normal ys -> List.length ys = List.length xs.
Proof.
  revert ys. induction xs as [|x xs IH]; intros ys; cbn.
  - intros H. apply normal_inj in H. now subst.
  - destruct (f x) as [y|]; cbn; [|discriminate].
    destruct (Array_map f xs) as [ys'|]; cbn; [|discriminate].
    intros H. apply normal_inj in H. subst. cbn. now rewrite (IH ys').
Qed.

Lemma Array_map_throws {A B : Type} (f : A -> completion B) xs :
  Array_map f xs = Throw <-> exists x, In x xs /\ f x = Throw.
Proof.
  induction xs as [|x xs IH]; cbn.
  - split; [discriminate | intros (x & [] & _)].
  - destruct (f x) as [y|] eqn:F; cbn.
    + destruct (Array_map f xs) as [ys|]; cbn.
      * split; [discriminate|]. intros (x' & [<-|Hin] & T); [congruence|].
        destruct IH as [_ IH]. discriminate IH. exists x'. auto.
      * split; [|reflexivity]. intros _.
        destruct IH as [IH _]. destruct (IH eq_refl) as (x' & Hin & T).
        exists x'. auto.
    + split; [|reflexivity]. intros _. exists x. auto.
Qed.

Lemma numbers_of_In n vs : In n (numbers_of vs) -> In (Number n) vs.
Proof.
  induction vs as [|v vs IH]; cbn; [auto|].
  destruct v; cbn; try (intros H; right; now apply IH).
  intros [<-|H]; [now left | right; now apply IH].
Qed.

Lemma numbers_of_length vs : (List.length (numbers_of vs) <= List.length vs)%nat.
Proof.
  induction vs as [|v vs IH]; cbn; [lia|]. destruct v; cbn; lia.
Qed.

(** X13. What a search keeps: every identifier handed to [setDisplayIds]
    is a number one of the results carried as its [row_id || id] and is a
    member of the marketable list, there are no more of them than
    results, and with an empty marketable list nothing is kept. *)
Theorem validIds_are_marketable_results data allMarketableIds ids :
  validIds data allMarketableIds = Normal ids ->
  exists vs,
    mappedIds data = Normal vs /\
    (forall id, In id ids ->
       In (Number id) vs /\
       exists member, In member allMarketableIds /\
                      Num.same_value_zero id member = true) /\
    (List.length ids <= List.length vs)%nat /\
    (allMarketableIds = [] -> ids = []).
Proof.
  unfold validIds, foundIds.
  destruct (mappedIds data) as [vs|]; cbn; [|discriminate].
  intros H. apply normal_inj in H. subst ids. exists vs.
  split; [reflexivity|]. split; [|split].
  - intros id Hin. apply filter_In in Hin. destruct Hin as [Hin Has].
    split; [now apply numbers_of_In|].
    unfold Set_has in Has. apply existsb_exists in Has.
    destruct Has as (member & Hm & E). exists member. auto.
  - pose proof (filter_length_le (fun id => Set_has id allMarketableIds)
                  (numbers_of vs)).
    pose proof (numbers_of_length vs). lia.
  - intros ->. induction (numbers_of vs) as [|n ns IH]; [reflexivity|exact IH].
Qed.

Lemma validIds_are_marketable_results_witness :
  exists vs,
    mappedIds (Obj [("results", Arr [Obj [("row_id", Number (Num.of_Z 5))];
                                     Obj [("id", Number (Num.of_Z 9))];
                                     Obj [("row_id", Str "7")]])])
      = Normal vs /\
    (forall id, In id [Num.of_Z 5] ->
       In (Number id) vs /\
       exists member, In member [Num.of_Z 4; Num.of_Z 5] /\
                      Num.same_value_zero id member = true) /\
    (List.length [Num.of_Z 5] <= List.length vs)%nat /\
    ([Num.of_Z 4; Num.of_Z 5] = [] -> [Num.of_Z 5] = []).
Proof.
  apply (validIds_are_marketable_results
           (Obj [("results", Arr [Obj [("row_id", Number (Num.of_Z 5))];
                                  Obj [("id", Number (Num.of_Z 9))];
                                  Obj [("row_id", Str "7")]])])
           [Num.of_Z 4; Num.of_Z 5] [Num.of_Z 5]).
  reflexivity.
Defined.

(** X14. When a search fails: computing [validIds] throws exactly when
    the response is [null] or [undefined], or its [results] is a truthy
    value that is no array, or one of the results is [null] or
    [undefined]; in every other case it yields a list. *)
Theorem validIds_throws_iff data allMarketableIds :
  validIds data allMarketableIds = Throw <->
  nullish data = true \/
  (truthy (prop data "results") = true /\
   forall rs, prop data "results" <> Arr rs) \/
  (exists rs r, prop data "results" = Arr rs /\ In r rs /\ nullish r = true).
Proof.
  unfold validIds, foundIds.
  assert (E : mappedIds data = Throw <->
              nullish data = true \/
              (truthy (prop data "results") = true /\
               forall rs, prop data "results" <> Arr rs) \/
              (exists rs r, prop data "results" = Arr rs /\ In r rs /\
                            nullish r = true)).
  { unfold mappedIds. destruct (nullish data) eqn:N.
    - destruct data; cbn in *; try discriminate; tauto.
    - unfold or_else. rewrite (get_prop data _ N). cbn [bind].
      destruct (truthy (prop data "results")) eqn:T; cbn [bind].
      + destruct (prop data "results") as [| |b|n|s|rs|fs] eqn:R;
          try (split; [intros _; right; left; split; [reflexivity | discriminate]
                      | reflexivity]).
        rewrite Array_map_throws. split.
        * intros (r & Hin & Thr). apply row_id_throws in Thr.
          right; right. exists rs, r. auto.
        * intros [C|[[_ C]|(rs' & r & Eq & Hin & Nr)]];
            [discriminate | now elim (C rs) |].
          injection Eq as <-. exists r. split; [exact Hin|].
          now apply row_id_throws.
      + cbn. split; [discriminate|].
        intros [C|[[C _]|(rs & r & Eq & _)]]; try discriminate.
        rewrite Eq in T. discriminate. }
  rewrite <- E. destruct (mappedIds data); cbn; split; congruence.
Qed.

Lemma validIds_throws_iff_witness :
  validIds (Obj [("results", Arr [Null])]) [Num.of_Z 5] = Throw /\
  validIds (Obj [("results", Str "none")]) [Num.of_Z 5] = Throw /\
  validIds (Obj []) [Num.of_Z 5] = Normal [].
Proof.
  split; [|split].
  - apply (proj2 (validIds_throws_iff (Obj [("results", Arr [Null])]) [Num.of_Z 5])).
    right; right. exists [Null], Null. cbn. auto.
  - apply (proj2 (validIds_throws_iff (Obj [("results", Str "none")]) [Num.of_Z 5])).
    right; left. split; [reflexivity | discriminate].
  - reflexivity.
Defined.

(** ** The icon address *)

(** X15. [parseIconUrl] gives the placeholder exactly when the icon data
    is falsy or has neither a truthy [path_hr1] nor a truthy [path]; it
    throws only if [encodeURIComponent] throws on the path it chose; and
    a truthy [path_hr1] is the path it encodes, whatever [path] holds. *)
Theorem parseIconUrl_placeholder_iff encodeURIComponent iconData :
  (parseIconUrl encodeURIComponent iconData = Normal placeholder <->
   truthy iconData = false \/
   (truthy (prop iconData "path_hr1") = false /\
    truthy (prop iconData "path") = false)) /\
  (parseIconUrl encodeURIComponent iconData = Throw ->
   exists rawPath, truthy rawPath = true /\ encodeURIComponent rawPath = Throw) /\
  (truthy (prop iconData "path_hr1") = true ->
   parseIconUrl encodeURIComponent iconData =
   (enc <- encodeURIComponent (prop iconData "path_hr1") ;;
    Normal ("https://v2.xivapi.com/api/asset?path=" ++ enc ++ "&format=png")%string)).
Proof.
  unfold parseIconUrl. destruct (truthy iconData) eqn:T; cbn [negb].
  2: { split; [split; auto|]. split; [discriminate|].
       destruct iconData; cbn in *; discriminate. }
  assert (N : nullish iconData = false) by (destruct iconData; cbn in *; congruence).
  rewrite (or_else_view iconData _ _ N). cbn [bind].
  destruct (truthy (prop iconData "path_hr1")) eqn:T1.
  - rewrite T1. cbn [negb]. split; [|split].
    + split.
      * destruct (encodeURIComponent (prop iconData "path_hr1")); cbn;
          intros H; [apply normal_inj in H|]; discriminate H.
      * intros [C|[C _]]; discriminate.
    + intros H. exists (prop iconData "path_hr1"). split; [exact T1|].
      destruct (encodeURIComponent (prop iconData "path_hr1"));
        [discriminate H | reflexivity].
    + reflexivity.
  - destruct (truthy (prop iconData "path")) eqn:T2; cbn [negb].
    + split; [|split].
      * split.
        -- destruct (encodeURIComponent (prop iconData "path")); cbn;
             intros H; [apply normal_inj in H|]; discriminate H.
        -- intros [C|[_ C]]; discriminate.
      * intros H. exists (prop iconData "path"). split; [exact T2|].
        destruct (encodeURIComponent (prop iconData "path"));
          [discriminate H | reflexivity].
      * discriminate.
    + split; [split; auto|]. split; discriminate.
Qed.

Lemma parseIconUrl_placeholder_iff_witness :
  parseIconUrl (fun _ => Normal "ui%2Ficon%2F020000.tex")
    (Obj [("path", Str "ui/icon/020000.tex"); ("path_hr1", Str "")])
  = Normal "https://v2.xivapi.com/api/asset?path=ui%2Ficon%2F020000.tex&format=png"
  /\
  parseIconUrl (fun _ => Normal "ui%2Ficon%2F020000.tex")
    (Obj [("path", Str ""); ("width", Number (Num.of_Z 64))])
  = Normal placeholder.
Proof.
  split; [reflexivity|].
  apply (proj1 (parseIconUrl_placeholder_iff
                  (fun _ => Normal "ui%2Ficon%2F020000.tex")
                  (Obj [("path", Str ""); ("width", Number (Num.of_Z 64))]))).
  right. split; reflexivity.
Defined.

(** ** When the loop throws *)

Lemma for_of_throws {A St : Type} (body : St -> A -> completion St)
      (bad : A -> Prop) xs acc :
  (forall st x, body st x = Throw <-> bad x) ->
  (for_of body xs acc = Throw <-> exists x, In x xs /\ bad x).
Proof.
  intros Hbody. revert acc. induction xs as [|x xs IH]; intros acc; cbn.
  - split; [discriminate | intros (x & [] & _)].
  - destruct (body acc x) as [acc'|] eqn:B; cbn.
    + rewrite IH. split.
      * intros (x' & Hin & Hb). exists x'. auto.
      * intros (x' & [<-|Hin] & Hb).
        -- apply Hbody with (st := acc) in Hb. congruence.
        -- exists x'. auto.
    + split; [|reflexivity]. intros _. exists x. split; [now left|].
      now apply (Hbody acc x).
Qed.

Lemma scan_listing_throws st l : scan_listing st l = Throw <-> nullish l = true.
Proof.
  destruct (nullish l) eqn:N.
  - now rewrite (scan_listing_nullish st l N).
  - rewrite (scan_listing_view st l N). split; discriminate.
Qed.

Lemma aggregate_entry_throws it :
  aggregate_entry it = Throw <->
  nullish it = true \/
  (finite_nonzero_number (raw_id_view it) = true /\
   exists l, In l (listings_view it) /\ nullish l = true).
Proof.
  destruct (nullish it) eqn:N.
  - rewrite (aggregate_entry_nullish it N). tauto.
  - unfold aggregate_entry. rewrite (raw_item_id_view it N). cbn [bind].
    rewrite truthy_safeNum.
    destruct (finite_nonzero_number (raw_id_view it)); cbn [negb].
    + rewrite (listings_of_view it N). cbn [bind]. unfold scan_listings.
      pose proof (for_of_throws scan_listing (fun l => nullish l = true)
                    (listings_view it) minima_init scan_listing_throws) as T.
      destruct (for_of scan_listing (listings_view it) minima_init) as [st|].
      * cbn [bind]. rewrite (get_prop it _ N). cbn [bind].
        split; [discriminate|]. intros [C|[_ E]]; [discriminate|].
        apply T in E. discriminate.
      * cbn [bind]. split; [|reflexivity]. intros _. right.
        split; [reflexivity|]. now apply T.
    + split; [discriminate|]. intros [C|[C _]]; discriminate.
Qed.

(** X16. When a fetch is lost: the loop over the entries throws exactly
    when some entry is [null] or [undefined], or has a usable identifier
    and a [null] or [undefined] among its listings (an entry that is
    skipped for its identifier is never read further); the fetcher then
    leaves the price map as it was. *)
Theorem reduce_entries_throws_iff entries :
  (reduce_entries entries = Throw <->
   exists it,
     In it entries /\
     (nullish it = true \/
      (finite_nonzero_number (raw_id_view it) = true /\
       exists l, In l (listings_view it) /\ nullish l = true))) /\
  (reduce_entries entries = Throw ->
   forall priceMap,
     fetchCurrentPrices (Obj [("items", Arr entries)]) priceMap = priceMap).
Proof.
  split.
  - unfold reduce_entries. apply for_of_throws. intros m it.
    rewrite <- aggregate_entry_throws. unfold reduce_entry.
    destruct (aggregate_entry it) as [[[k info]|]|]; cbn; split; congruence.
  - intros T priceMap. unfold fetchCurrentPrices. cbn. now rewrite T.
Qed.

Lemma reduce_entries_throws_iff_witness :
  reduce_entries [sample_tie_entry; sample_entry 7 [Null]] = Throw /\
  reduce_entries [sample_tie_entry;
                  Obj [("itemID", Str "7"); ("listings", Arr [Null])]]
    = Normal [(Num.of_Z 5, sample_tie_info)].
Proof.
  split; [|reflexivity].
  apply (proj2 (proj1 (reduce_entries_throws_iff
                         [sample_tie_entry; sample_entry 7 [Null]]))).
  exists (sample_entry 7 [Null]). split; [cbn; auto|].
  right. split; [reflexivity|]. exists Null. cbn. auto.
Defined.

(** ** The shapes of a response *)

(** X17. The three shapes of a response are interchangeable for the
    fetcher: a mapping whose values are all objects, arrays or [null]
    gives the map that the array of its values gives, whatever its keys;
    and a bare entry with a truthy [itemID] and no truthy [items] gives
    the map of the one-element array of itself. *)
Theorem response_shapes_agree priceMap :
  (forall fields,
     Forall (fun kv => typeof_object (snd kv) = true) fields ->
     fetchCurrentPrices (Obj [("items", Obj fields)]) priceMap =
     fetchCurrentPrices (Obj [("items", Arr (map snd fields))]) priceMap) /\
  (forall it,
     truthy (prop it "items") = false ->
     truthy (prop it "itemID") = true ->
     fetchCurrentPrices it priceMap =
     fetchCurrentPrices (Obj [("items", Arr [it])]) priceMap).
Proof.
  split.
  - intros fields Hall. unfold fetchCurrentPrices. rewrite !normalize_view. cbn.
    replace (filter typeof_object (map snd fields)) with (map snd fields);
      [reflexivity|].
    induction Hall as [|[key v] fields Hv _ IH]; cbn; [reflexivity|].
    cbn in Hv. rewrite Hv. now rewrite <- IH.
  - intros it Ti Tid. unfold fetchCurrentPrices. rewrite !normalize_view. cbn.
    assert (T : truthy it = true).
    { destruct it; cbn in *; try discriminate; reflexivity. }
    now rewrite T, Ti, Tid.
Qed.

Lemma response_shapes_agree_witness :
  fetchCurrentPrices
    (Obj [("items", Obj [("5", sample_tie_entry); ("x", sample_mixed_entry)])]) []
  = fetchCurrentPrices
      (Obj [("items", Arr [sample_tie_entry; sample_mixed_entry])]) [] /\
  fetchCurrentPrices sample_tie_entry []
  = fetchCurrentPrices (Obj [("items", Arr [sample_tie_entry])]) [].
Proof.
  split.
  - apply (proj1 (response_shapes_agree [])
             [("5", sample_tie_entry); ("x", sample_mixed_entry)]).
    repeat constructor.
  - apply (proj2 (response_shapes_agree []) sample_tie_entry); reflexivity.
Defined.
